(** * Two-replica PIR demo (real_pir_protocol.cpp): model and properties

    The C++ program keeps its database in two folders, [D0] and [D1], of
    text files made of the characters '0' and '1'.  A query is a vector of
    ints; the server part reads the two files of the selected video, blinds
    them with fresh random bits and stores these bits in [r1.txt] and
    [r2.txt]; the client part re-reads a file of [D0].

    The embedding threads the file system through every function, together
    with a log of the file-system calls made (the accesses an observer of the
    process sees).  Console output and wall-clock measurements are left out:
    no function below depends on them. *)

From Stdlib Require Import ZArith String Ascii Bool Lia.
From Stdlib Require OrderedTypeEx.
From stdpp Require Import base list sorting.

Local Open Scope string_scope.
Local Open Scope list_scope.
Local Open Scope nat_scope.

(** ** File system *)

(** A [std::filesystem::path], as the sequence of its elements. *)
Definition path := list string.

(** A directory entry is a regular file with its bytes, or a folder.  The
    entries of a folder are kept in the order [directory_iterator] yields
    them, which the C++ standard leaves unspecified. *)
#[warnings="-register-all"]
Inductive node : Type :=
| Regular (data : string)
| Folder (entries : list (string * node)).

Fixpoint assoc {A : Type} (k : string) (l : list (string * A)) : option A :=
  match l with
  | [] => None
  | (k', v) :: l' => if String.eqb k k' then Some v else assoc k l'
  end.

Fixpoint update {A : Type} (k : string) (v : A) (l : list (string * A))
  : list (string * A) :=
  match l with
  | [] => [(k, v)]
  | (k', v') :: l' =>
      if String.eqb k k' then (k, v) :: l' else (k', v') :: update k v l'
  end.

Fixpoint resolve (p : path) (n : node) : option node :=
  match p with
  | [] => Some n
  | c :: p' =>
      match n with
      | Folder es =>
          match assoc c es with
          | Some m => resolve p' m
          | None => None
          end
      | Regular _ => None
      end
  end.

(** Opening [p] with [std::ios::out | std::ios::trunc] and writing [data]:
    the file is created when its folder exists, replaced when it is a regular
    file, and the open fails ([None]) on a folder or under a missing folder. *)
Fixpoint store (p : path) (data : string) (n : node) : option node :=
  match p with
  | [] =>
      match n with
      | Regular _ => Some (Regular data)
      | Folder _ => None
      end
  | c :: p' =>
      match n with
      | Folder es =>
          match assoc c es with
          | Some m =>
              match store p' data m with
              | Some m' => Some (Folder (update c m' es))
              | None => None
              end
          | None =>
              match p' with
              | [] => Some (Folder (update c (Regular data) es))
              | _ :: _ => None
              end
          end
      | Regular _ => None
      end
  end.

(** File-system calls, as seen from outside the process. *)
Inductive event : Type :=
| EvExists (p : path)
| EvIterate (p : path)
| EvOpenIn (p : path)
| EvOpenOut (p : path).

Record world : Type := World {
  disk : node;          (* the working directory *)
  log : list event      (* calls made so far, oldest first *)
}.

Definition emit (e : event) (w : world) : world :=
  World (disk w) (log w ++ [e]).

(** ** Computations *)

Inductive outcome (A : Type) : Type :=
| Returns (a : A) (w : world)
| Throws (w : world)     (* an exception escapes: std::filesystem::
                            filesystem_error, std::length_error *)
| Undefined.             (* operator[] past the end of a vector *)
Arguments Returns {A} a w.
Arguments Throws {A} w.
Arguments Undefined {A}.

Definition M (A : Type) : Type := world -> outcome A.

Definition ret {A : Type} (a : A) : M A := fun w => Returns a w.

Definition bind {A B : Type} (m : M A) (k : A -> M B) : M B :=
  fun w =>
    match m w with
    | Returns a w' => k a w'
    | Throws w' => Throws w'
    | Undefined => Undefined
    end.

Definition undefined {A : Type} : M A := fun _ => Undefined.

Definition throw {A : Type} : M A := fun w => Throws w.

Declare Scope io_scope.
Delimit Scope io_scope with io.
Notation "x <- m ;; k" := (bind m (fun x => k))
  (at level 100, m at next level, right associativity) : io_scope.
Local Open Scope io_scope.

(** [fs::exists] *)
Definition fs_exists (p : path) : M bool :=
  fun w => Returns (bool_decide (is_Some (resolve p (disk w)))) (emit (EvExists p) w).

(** [fs::directory_iterator]: throws unless [p] is a folder. *)
Definition directory_iterator (p : path) : M (list (string * node)) :=
  fun w =>
    match resolve p (disk w) with
    | Some (Folder es) => Returns es (emit (EvIterate p) w)
    | _ => Throws (emit (EvIterate p) w)
    end.

(** [std::ifstream in(p); in.is_open()] followed by the read of the whole
    file ([seekg], [tellg], [s.resize], [read]).  A path that does not exist
    does not open.  A folder does open, as under Linux: [tellg] then gives no
    file size and [s.resize] throws [std::length_error], which nothing
    catches. *)
Definition ifstream_read (p : path) : M (option string) :=
  fun w =>
    match resolve p (disk w) with
    | Some (Regular s) => Returns (Some s) (emit (EvOpenIn p) w)
    | Some (Folder _) => Throws (emit (EvOpenIn p) w)
    | None => Returns None (emit (EvOpenIn p) w)
    end.

(** [std::ifstream in(p); in.is_open()] alone: what was opened, if
    anything. *)
Definition ifstream_open (p : path) : M (option node) :=
  fun w => Returns (resolve p (disk w)) (emit (EvOpenIn p) w).

(** [std::ofstream out(p, trunc); out.is_open()] and the writes that follow. *)
Definition ofstream_write (p : path) (data : string) : M bool :=
  fun w =>
    match store p data (disk w) with
    | Some d => Returns true (World d (log w ++ [EvOpenOut p]))
    | None => Returns false (emit (EvOpenOut p) w)
    end.

(** ** readBitsFile, writeBitsFile *)

Definition push_bit (c : ascii) (outBits : list Z) : list Z :=
  if Ascii.eqb c "0" then outBits ++ [0%Z]
  else if Ascii.eqb c "1" then outBits ++ [1%Z]
  else outBits.

Fixpoint push_bits (s : string) (outBits : list Z) : list Z :=
  match s with
  | EmptyString => outBits
  | String c s' => push_bits s' (push_bit c outBits)
  end.

(** Returns the success flag and the vector passed by reference; the
    exception of the read of a folder goes through to the caller. *)
Definition readBitsFile (p : path) (outBits : list Z) : M (bool * list Z) :=
  r <- ifstream_read p ;;
  match r with
  | None => ret (false, outBits)
  | Some s => ret (true, push_bits s outBits)
  end.

(** [bits[i] ? '1' : '0'] *)
Definition bit_char (b : Z) : ascii :=
  if (b =? 0)%Z then "0"%char else "1"%char.

(** The characters written; the source sends them in chunks of 1000000,
    which leaves the same file. *)
Definition bits_text (bits : list Z) : string :=
  fold_right (fun b s => String (bit_char b) s) EmptyString bits.

Definition writeBitsFile (p : path) (bits : list Z) : M bool :=
  ofstream_write p (bits_text bits).

(** ** setup_server_database *)

(** [s.substr(pos)] for [pos <= s.size()] *)
Definition substr (pos : nat) (s : string) : string :=
  substring pos (String.length s - pos) s.

Fixpoint rfind_dot (s : string) : option nat :=
  match s with
  | EmptyString => None
  | String c s' =>
      match rfind_dot s' with
      | Some i => Some (S i)
      | None => if Ascii.eqb c "." then Some 0 else None
      end
  end.

(** [path::extension] of a file name *)
Definition extension (name : string) : string :=
  if String.eqb name "." || String.eqb name ".." then ""
  else match rfind_dot name with
       | Some (S i) => substr (S i) name
       | _ => ""
       end.

Definition is_regular_file (n : node) : bool :=
  match n with Regular _ => true | Folder _ => false end.

Definition D0 : path := ["D0"].
Definition D1 : path := ["D1"].

Definition setup_keeps (e : string * node) : bool :=
  let name := fst e in
  is_regular_file (snd e) && String.eqb (extension name) ".txt"
  && (12 <=? String.length name)
  && ((12 <=? String.length name)
      && String.eqb (substr (String.length name - 11) name) ".binary.txt").

(** The file names ([p.path().filename()]) of the videos, in iteration
    order; an empty vector when [D0] is missing or holds no video. *)
Definition setup_server_database : M (list path) :=
  ex <- fs_exists D0 ;;
  if negb ex then ret []
  else
    es <- directory_iterator D0 ;;
    let videoFiles :=
      (fun e => [fst e]) <$> filter (fun e => setup_keeps e = true) es in
    match videoFiles with
    | [] => ret []
    | _ => ret videoFiles
    end.

(** ** client_generate_query *)

Definition client_generate_query (targetIndex : Z) (total : nat) : list Z :=
  let q := replicate total 0%Z in
  if (0 <=? targetIndex)%Z && (Z.to_nat targetIndex <? total)
  then <[Z.to_nat targetIndex := 1%Z]> q
  else q.

(** ** server_process_query *)

(** The freshly seeded generator, as the outcomes of its successive
    [dist(gen)] draws; draw [2j] fills [r1[j]] and draw [2j+1] fills [r2[j]]. *)
Definition draws := nat -> bool.

Definition gen_r1 (gen : draws) (bitLen : nat) : list Z :=
  (fun j => Z.b2z (gen (2 * j))) <$> seq 0 bitLen.

Definition gen_r2 (gen : draws) (bitLen : nat) : list Z :=
  (fun j => Z.b2z (gen (2 * j + 1))) <$> seq 0 bitLen.

(** [result[j] = (d0Bits[j] * r1[j] + d1Bits[j] * r2[j]) & 1] for
    [j < bitLen]; [None] when an index is past the end of its vector. *)
Definition masked_bit (d0Bits d1Bits r1 r2 : list Z) (j : nat) : option Z :=
  match d0Bits !! j, d1Bits !! j, r1 !! j, r2 !! j with
  | Some a, Some b, Some x, Some y => Some (Z.land (a * x + b * y) 1)
  | _, _, _, _ => None
  end.

Fixpoint masked_bits (d0Bits d1Bits r1 r2 : list Z) (js : list nat)
  : option (list Z) :=
  match js with
  | [] => Some []
  | j :: js' =>
      match masked_bit d0Bits d1Bits r1 r2 j with
      | Some b =>
          match masked_bits d0Bits d1Bits r1 r2 js' with
          | Some bs => Some (b :: bs)
          | None => None
          end
      | None => None
      end
  end.

Definition r1_txt : path := ["r1.txt"].
Definition r2_txt : path := ["r2.txt"].

(** The body run for the video whose query entry is 1. *)
Definition process_video (gen : draws) (videoFile : path) : M (list Z) :=
  rd0 <- readBitsFile (D0 ++ videoFile) [] ;;
  let d0Bits := snd rd0 in
  if negb (fst rd0) then ret []
  else
    rd1 <- readBitsFile (D1 ++ videoFile) [] ;;
    let d1Bits := snd rd1 in
    if negb (fst rd1) then ret []
    else
      let bitLen := length d0Bits in
      let r1 := gen_r1 gen bitLen in
      let r2 := gen_r2 gen bitLen in
      match masked_bits d0Bits d1Bits r1 r2 (seq 0 bitLen) with
      | None => undefined
      | Some result =>
          ok1 <- writeBitsFile r1_txt r1 ;;
          if negb ok1 then ret d0Bits
          else
            ok2 <- writeBitsFile r2_txt r2 ;;
            if negb ok2 then ret d0Bits
            else ret result
      end.

(** The loop [for (i = 0; i < videoFiles.size(); ++i)], entered at [i] with
    the files from [i] on. *)
Fixpoint server_loop (gen : draws) (query : list Z) (i : nat)
    (rest : list path) : M (list Z) :=
  match rest with
  | [] => ret []
  | videoFile :: rest' =>
      if (i <? length query) && (default 0%Z (query !! i) =? 1)%Z
      then process_video gen videoFile
      else server_loop gen query (S i) rest'
  end.

Definition server_process_query (gen : draws) (query : list Z)
    (videoFiles : list path) : M (list Z) :=
  server_loop gen query 0 videoFiles.

(** ** client_decode_pir_result *)

Fixpoint path_compare (p q : path) : comparison :=
  match p, q with
  | [], [] => Eq
  | [], _ :: _ => Lt
  | _ :: _, [] => Gt
  | a :: p', b :: q' =>
      match String.compare a b with
      | Eq => path_compare p' q'
      | c => c
      end
  end.

Definition path_ltb (p q : path) : bool :=
  match path_compare p q with Lt => true | _ => false end.

Fixpoint sort_insert (p : path) (l : list path) : list path :=
  match l with
  | [] => [p]
  | q :: l' => if path_ltb q p then q :: sort_insert p l' else p :: l
  end.

(** [std::sort(files.begin(), files.end())] on paths *)
Definition std_sort (l : list path) : list path :=
  fold_right sort_insert [] l.

Definition decode_keeps (e : string * node) : bool :=
  let name := fst e in
  is_regular_file (snd e)
  && ((11 <=? String.length name)
      && String.eqb (substr (String.length name - 11) name) ".binary.txt").

(** The listing both branches of the function build: the [.binary.txt]
    files of [D0] with their full paths, sorted. *)
Definition list_videos : M (list path) :=
  es <- directory_iterator D0 ;;
  ret (std_sort ((fun e => D0 ++ [fst e])
                   <$> filter (fun e => decode_keeps e = true) es)).

Definition read_original (targetIndex : nat) : M (list Z) :=
  files <- list_videos ;;
  match files !! targetIndex with
  | None => ret []
  | Some f =>
      r <- readBitsFile f [] ;;
      ret (snd r)
  end.

Definition client_decode_pir_result (serverResponse : list Z)
    (targetIndex : nat) : M (list Z) :=
  e1 <- fs_exists r1_txt ;;
  e2 <- (if e1 then fs_exists r2_txt else ret true) ;;
  if negb e1 || negb e2 then read_original targetIndex
  else
    r1 <- readBitsFile r1_txt [] ;;
    r2 <- readBitsFile r2_txt [] ;;
    read_original targetIndex.

(** ** The query, as [main] runs it *)

(** [main] calls the three steps with an index it has checked to lie in
    [0, videoFiles.size()), so [static_cast<size_t>(targetIndex)] is the
    index itself. *)

Definition run_query (gen : draws) (videoFiles : list path)
    (targetIndex : Z) : M (list Z) :=
  let query := client_generate_query targetIndex (length videoFiles) in
  serverResp <- server_process_query gen query videoFiles ;;
  client_decode_pir_result serverResp (Z.to_nat targetIndex).

(** [main] up to the decoded bits: [None] when it stops before the query
    (no video, or an index outside the listing).  The index is the one read
    from the console, 0 when the input does not parse.  What follows the
    decoding (writing [retrieved_video.bits] and the packed video file) is
    not modelled. *)
Definition pir_main (gen : draws) (targetIndex : Z) : M (option (list Z)) :=
  videoFiles <- setup_server_database ;;
  match videoFiles with
  | [] => ret None
  | _ =>
      if (targetIndex <? 0)%Z || (length videoFiles <=? Z.to_nat targetIndex)
      then ret None
      else
        decoded <- run_query gen videoFiles targetIndex ;;
        ret (Some decoded)
  end.

(** ** Notions used in the statements *)

Definition bits_of (s : string) : list Z := push_bits s [].

(** The bits a replica folder stores for a video, when the file is there. *)
Definition stored_share (dir videoFile : path) (n : node) : option (list Z) :=
  match resolve (dir ++ videoFile) n with
  | Some (Regular s) => Some (bits_of s)
  | _ => None
  end.

Definition xor_bits (a b : list Z) : list Z := zip_with Z.lxor a b.

(** [Share_A XOR Share_B == Record] for one video, shares read from [D0]
    and [D1], all three of one length. *)
Definition share_invariantb (n : node) (videoFile : path) (record : list Z)
  : bool :=
  match stored_share D0 videoFile n, stored_share D1 videoFile n with
  | Some a, Some b =>
      (length a =? length record) && (length b =? length record)
      && bool_decide (xor_bits a b = record)
  | _, _ => false
  end.

(** [i] is the first position of [query] holding 1, and names [videoFile]. *)
Definition selects (query : list Z) (videoFiles : list path) (i : nat)
    (videoFile : path) : Prop :=
  videoFiles !! i = Some videoFile /\ query !! i = Some 1%Z
  /\ forall j, j < i -> query !! j <> Some 1%Z.

Definition hamming_weight (q : list Z) : nat :=
  length (filter (fun b => b <> 0%Z) q).

Definition is_bit (b : Z) : Prop := b = 0%Z \/ b = 1%Z.

(** The evaluator of the specification: bit [j] of the response is the XOR
    over all records of [selection[i] AND share_i[j]], a share shorter than
    [j+1] bits contributing 0. *)
Definition share_bit (share : list Z) (j : nat) : Z := default 0%Z (share !! j).

Definition gf2_inner_product (selection : list Z) (shares : list (list Z))
    (j : nat) : Z :=
  foldr Z.lxor 0%Z
    (zip_with (fun s share => Z.land s (share_bit share j)) selection shares).

Definition max_length (shares : list (list Z)) : nat :=
  foldr Nat.max 0 (length <$> shares).

Definition spec_evaluate (selection : list Z) (shares : list (list Z))
  : list Z :=
  gf2_inner_product selection shares <$> seq 0 (max_length shares).

Definition replica_shares (dir : path) (videoFiles : list path) (n : node)
  : list (list Z) :=
  (fun f => default [] (stored_share dir f n)) <$> videoFiles.

Definition log_of {A : Type} (o : outcome A) : list event :=
  match o with
  | Returns _ w | Throws w => log w
  | Undefined => []
  end.

Definition disk_of {A : Type} (o : outcome A) : option node :=
  match o with
  | Returns _ w | Throws w => Some (disk w)
  | Undefined => None
  end.

Definition value_of {A : Type} (o : outcome A) : option A :=
  match o with
  | Returns a _ => Some a
  | _ => None
  end.

(** The file-system calls made for one video, in order. *)
Definition video_events (videoFile : path) : list event :=
  [EvOpenIn (D0 ++ videoFile); EvOpenIn (D1 ++ videoFile);
   EvOpenOut r1_txt; EvOpenOut r2_txt].

(** The file-system calls the decoder makes before it lists [D0]. *)
Definition decode_prelude (n : node) : list event :=
  if bool_decide (is_Some (resolve r1_txt n))
  then if bool_decide (is_Some (resolve r2_txt n))
       then [EvExists r1_txt; EvExists r2_txt; EvOpenIn r1_txt; EvOpenIn r2_txt]
       else [EvExists r1_txt; EvExists r2_txt]
  else [EvExists r1_txt].

(** Two disks holding the same [D0] and [D1]. *)
Definition same_replicas (d d' : node) : Prop :=
  resolve D0 d' = resolve D0 d /\ resolve D1 d' = resolve D1 d.

(** A computation that, whenever it ends, leaves [D0] and [D1] as found. *)
Definition keeps_replicas {A : Type} (m : M A) : Prop :=
  forall w d', disk_of (m w) = Some d' -> same_replicas (disk w) d'.

Definition is_folder (o : option node) : bool :=
  match o with Some (Folder _) => true | _ => false end.

(** The calls the decoder makes up to the exception, when it finds both
    mask files and one of them is a folder. *)
Definition decode_blocked (n : node) : option (list event) :=
  if bool_decide (is_Some (resolve r1_txt n))
     && bool_decide (is_Some (resolve r2_txt n))
  then if is_folder (resolve r1_txt n)
       then Some [EvExists r1_txt; EvExists r2_txt; EvOpenIn r1_txt]
       else if is_folder (resolve r2_txt n)
            then Some [EvExists r1_txt; EvExists r2_txt; EvOpenIn r1_txt;
                       EvOpenIn r2_txt]
            else None
  else None.

(** What the body of the server does once both files of the video are
    read. *)
Definition after_reading (gen : draws) (videoFile : path) (w : world)
    (d0Bits d1Bits : list Z) : outcome (list Z) :=
  let r1 := gen_r1 gen (length d0Bits) in
  let r2 := gen_r2 gen (length d0Bits) in
  match masked_bits d0Bits d1Bits r1 r2 (seq 0 (length d0Bits)) with
  | None => Undefined
  | Some result =>
      match store r1_txt (bits_text r1) (disk w) with
      | None =>
          Returns d0Bits
            (World (disk w) (log w ++ take 3 (video_events videoFile)))
      | Some disk1 =>
          match store r2_txt (bits_text r2) disk1 with
          | None =>
              Returns d0Bits (World disk1 (log w ++ video_events videoFile))
          | Some disk2 =>
              Returns result (World disk2 (log w ++ video_events videoFile))
          end
      end
  end.

(** The accesses of the server for one video: the [D0] file, the [D1]
    file, [r1.txt], [r2.txt], in this order, the run ending after the first
    of them that cannot be read, or written. *)
Definition access_rule (gen : draws) (videoFile : path) (w : world)
    (run : outcome (list Z)) : Prop :=
  (stored_share D0 videoFile (disk w) = None ->
   log_of run = log w ++ take 1 (video_events videoFile))
  /\ (forall d0Bits,
        stored_share D0 videoFile (disk w) = Some d0Bits ->
        stored_share D1 videoFile (disk w) = None ->
        log_of run = log w ++ take 2 (video_events videoFile))
  /\ (forall d0Bits d1Bits,
        stored_share D0 videoFile (disk w) = Some d0Bits ->
        stored_share D1 videoFile (disk w) = Some d1Bits ->
        (length d1Bits < length d0Bits -> run = Undefined)
        /\ (length d0Bits <= length d1Bits ->
            store r1_txt (bits_text (gen_r1 gen (length d0Bits))) (disk w)
            = None ->
            log_of run = log w ++ take 3 (video_events videoFile))
        /\ (length d0Bits <= length d1Bits ->
            store r1_txt (bits_text (gen_r1 gen (length d0Bits))) (disk w)
            <> None ->
            log_of run = log w ++ video_events videoFile)).

(** The listing the client indexes: the sorted [.binary.txt] paths of [D0]. *)
Definition client_listing (n : node) : option (list path) :=
  match resolve D0 n with
  | Some (Folder es) =>
      Some (std_sort ((fun e => D0 ++ [fst e])
                      <$> filter (fun e => decode_keeps e = true) es))
  | _ => None
  end.

(** ** The statements of the specification, as written

    Each is checked against the model further down. *)

(** Correctness at one input: with shares that XOR to the records, the
    query for [k] returns [Record[k]]. *)
Definition pipeline_correct_at (gen : draws) (w : world)
    (records : list (list Z)) (k : nat) : Prop :=
  forall videoFiles w1 record,
    setup_server_database w = Returns videoFiles w1 ->
    length records = length videoFiles ->
    (forall i f r, videoFiles !! i = Some f -> records !! i = Some r ->
                   share_invariantb (disk w) f r = true) ->
    records !! k = Some record ->
    exists w', run_query gen videoFiles (Z.of_nat k) w1 = Returns record w'.

(** Share invariant established at setup: every listed video has two
    shares that XOR to a record of their length. *)
Definition setup_establishes_shares_at (w : world) : Prop :=
  forall videoFiles w',
    setup_server_database w = Returns videoFiles w' ->
    forall videoFile, videoFile ∈ videoFiles ->
    exists record, share_invariantb (disk w') videoFile record = true.

(** The evaluator's response is, bit by bit, the GF(2) inner product of the
    selection vector with the shares the replica folder [dir] stores. *)
Definition evaluator_is_inner_product_at (dir : path) (gen : draws)
    (query : list Z) (videoFiles : list path) (w : world) : Prop :=
  forall response w',
    server_process_query gen query videoFiles w = Returns response w' ->
    let shares := replica_shares dir videoFiles (disk w) in
    forall j, j < max_length shares ->
              response !! j = Some (gf2_inner_product query shares j).


(** Obliviousness: the queries for [k1] and [k2] make the server perform
    the same sequence of file-system calls. *)
Definition same_accesses_at (gen : draws) (videoFiles : list path) (w : world)
    (k1 k2 : nat) : Prop :=
  log_of (server_process_query gen
            (client_generate_query (Z.of_nat k1) (length videoFiles))
            videoFiles w)
  = log_of (server_process_query gen
              (client_generate_query (Z.of_nat k2) (length videoFiles))
              videoFiles w).

(** A query leaves the disk as it found it. *)
Definition query_writes_nothing_at (gen : draws) (query : list Z)
    (videoFiles : list path) (w : world) : Prop :=
  forall d',
    disk_of (server_process_query gen query videoFiles w) = Some d' ->
    d' = disk w.

(** ** Sample databases *)

Definition video_a : path := ["a.binary.txt"].
Definition video_b : path := ["b.binary.txt"].

(** Two videos of one bit; both folders store 0 for the first and 1 for
    the second, so the records they share out are 0 and 0. *)
Definition two_videos : node :=
  Folder [("D0", Folder [("a.binary.txt", Regular "0");
                         ("b.binary.txt", Regular "1")]);
          ("D1", Folder [("a.binary.txt", Regular "0");
                         ("b.binary.txt", Regular "1")])].


(** One video in [D0] and no [D1] at all. *)
Definition lone_replica : node :=
  Folder [("D0", Folder [("a.binary.txt", Regular "1")])].

(** Two videos that [D0] lists in the order b, a. *)
Definition unsorted_videos : node :=
  Folder [("D0", Folder [("b.binary.txt", Regular "1");
                         ("a.binary.txt", Regular "0")]);
          ("D1", Folder [("b.binary.txt", Regular "1");
                         ("a.binary.txt", Regular "0")])].

(** One video whose [D1] file is shorter than its [D0] file. *)
Definition short_replica : node :=
  Folder [("D0", Folder [("a.binary.txt", Regular "11")]);
          ("D1", Folder [("a.binary.txt", Regular "1")])].

(** One video whose [D1] entry is a folder. *)
Definition folder_replica : node :=
  Folder [("D0", Folder [("a.binary.txt", Regular "0")]);
          ("D1", Folder [("a.binary.txt", Folder [])])].


Definition all_ones : draws := fun _ => true.

(** * The rest of the program

    The writers' chunked loops, the packing of bits into bytes, and the
    client's last step up to the end of [main]. *)

(** ** Loops *)

(** [for (; i < end; i += step) buf.push_back(item(i));], giving the final
    [i] and buffer.  [fuel] bounds the number of turns; the loops below are
    run with enough of it to leave through their test. *)
Fixpoint for_loop {X : Type} (step : N) (item : N -> X) (fuel : nat)
    (end_ i : N) (buf : list X) : N * list X :=
  match fuel with
  | 0 => (i, buf)
  | S fuel' =>
      if (i <? end_)%N
      then for_loop step item fuel' end_ (i + step)%N (buf ++ [item i])
      else (i, buf)
  end.

(** [while (i < size) { buf.clear(); end = min(size, i + chunk);
    <inner loop from i to end>; out.write(buf); }], giving the final [i] and
    all that was written. *)
Fixpoint chunk_loop {X : Type} (chunk : N) (inner : N -> N -> N * list X)
    (fuel : nat) (size i : N) (written : list X) : N * list X :=
  match fuel with
  | 0 => (i, written)
  | S fuel' =>
      if (i <? size)%N
      then
        let end_ := N.min size (i + chunk)%N in
        let r := inner end_ i in
        chunk_loop chunk inner fuel' size (fst r) (written ++ snd r)
      else (i, written)
  end.

(** [chunkSize] of [writeBitsFile], [chunkBits] of [writeBitsAsBinaryVideo] *)
Definition chunkSize : N := 1000000.
Definition chunkBits : N := 1000000.

(** ** writeBitsFile, chunk by chunk *)

(** The two loops of [writeBitsFile] as the source has them. *)
Definition text_chunks (bits : list Z) : N * list ascii :=
  chunk_loop chunkSize
    (fun end_ i =>
       for_loop 1 (fun i => bit_char (default 0%Z (bits !! N.to_nat i)))
         (length bits) end_ i [])
    (length bits) (N.of_nat (length bits)) 0%N [].

Definition writeBitsFile_chunked (p : path) (bits : list Z) : M bool :=
  ofstream_write p (string_of_list_ascii (snd (text_chunks bits))).

(** ** writeBitsAsBinaryVideo *)

(** [value |= static_cast<unsigned char>((bit & 1) << (7 - k))] for
    [k = 0 .. 7], from [value = 0]. *)
Definition or_bits (bit_at : N -> Z) : Z :=
  fold_left
    (fun value k =>
       Z.lor value (Z.shiftl (Z.land (bit_at k) 1) (7 - Z.of_N k)))
    [0; 1; 2; 3; 4; 5; 6; 7]%N 0%Z.

(** The byte made of [bits[i .. i+8)], a position at or past [end]
    counting as 0. *)
Definition video_byte (bits : list Z) (end_ i : N) : Z :=
  or_bits (fun k =>
             let idx := (i + k)%N in
             if (idx <? end_)%N then default 0%Z (bits !! N.to_nat idx)
             else 0%Z).

Definition video_chunks (bits : list Z) : N * list Z :=
  chunk_loop chunkBits
    (fun end_ i => for_loop 8 (video_byte bits end_) (length bits) end_ i [])
    (length bits) (N.of_nat (length bits)) 0%N [].

(** Bytes as the characters of a file. *)
Definition bytes_text (bytes : list Z) : string :=
  string_of_list_ascii ((fun v => ascii_of_N (Z.to_N v)) <$> bytes).

Definition writeBitsAsBinaryVideo (outPath : path) (bits : list Z) : M bool :=
  ofstream_write outPath (bytes_text (snd (video_chunks bits))).

(** ** convertBitsFileToBinaryVideo *)

(** The byte made of the characters [bits[i .. i+8)] of the text, a position
    past the end counting as '0' and every character but '1' as 0. *)
Definition char_byte (bits : string) (i : N) : Z :=
  or_bits (fun k =>
             let idx := (i + k)%N in
             let c := if (idx <? N.of_nat (String.length bits))%N
                      then default "0"%char (String.get (N.to_nat idx) bits)
                      else "0"%char in
             Z.b2z (Ascii.eqb c "1")).

Definition text_bytes (bits : string) : N * list Z :=
  for_loop 8 (char_byte bits) (String.length bits)
    (N.of_nat (String.length bits)) 0%N [].

(** [out] is opened, and so emptied, before [in] is read: were the two
    paths one file, the text read would be empty; and when [in] is a folder,
    the [resize] throws once [out] has been opened. *)
Definition convertBitsFileToBinaryVideo (bitsPath outVideoPath : path)
  : M bool :=
  r <- ifstream_open bitsPath ;;
  match r with
  | None => ret false
  | Some (Folder _) =>
      ok <- ofstream_write outVideoPath "" ;;
      if negb ok then ret false else throw
  | Some (Regular s) =>
      let bits := match path_compare bitsPath outVideoPath with
                  | Eq => ""
                  | _ => s
                  end in
      ofstream_write outVideoPath (bytes_text (snd (text_bytes bits)))
  end.

(** ** convert_bits_to_video_direct, client_reconstruct_video, main *)

Definition retrieved_video_bits : path := ["retrieved_video.bits"].
Definition reconstructed_video_mp4 : path := ["reconstructed_video.mp4"].

(** The playback started under Windows after the file is written is left
    out. *)
Definition convert_bits_to_video_direct (decodedBits : list Z) : M bool :=
  ok <- writeBitsAsBinaryVideo reconstructed_video_mp4 decodedBits ;;
  if negb ok then ret false else ret true.

Definition client_reconstruct_video (serverResponse : list Z)
    (targetIndex : nat) : M bool :=
  decoded <- client_decode_pir_result serverResponse targetIndex ;;
  ok <- writeBitsFile retrieved_video_bits decoded ;;
  if negb ok then convert_bits_to_video_direct decoded
  else
    ok2 <- convertBitsFileToBinaryVideo retrieved_video_bits
             reconstructed_video_mp4 ;;
    if negb ok2 then ret false else ret true.

(** [main]: [None] when it stops before the query, else whether the
    reconstruction succeeded ("PIR Protocol Completed" or "Failed"). *)
Definition main (gen : draws) (targetIndex : Z) : M (option bool) :=
  videoFiles <- setup_server_database ;;
  match videoFiles with
  | [] => ret None
  | _ =>
      if (targetIndex <? 0)%Z || (length videoFiles <=? Z.to_nat targetIndex)
      then ret None
      else
        let query := client_generate_query targetIndex (length videoFiles) in
        serverResp <- server_process_query gen query videoFiles ;;
        ok <- client_reconstruct_video serverResp (Z.to_nat targetIndex) ;;
        ret (Some ok)
  end.

(** ** Notions used in the further statements *)

(** [bits[i] ? 1 : 0] *)
Definition truth (b : Z) : Z := if (b =? 0)%Z then 0%Z else 1%Z.

(** The positions [i], [i + step], ..., [cnt] of them. *)
Definition stride (step i : N) (cnt : nat) : list N :=
  (fun q => (i + step * N.of_nat q)%N) <$> seq 0 cnt.

(** The bytes of a bit vector, without chunks: byte [q] is made of the bits
    [8q .. 8q+7], those past the end counting as 0. *)
Definition packed (bits : list Z) : list Z :=
  video_byte bits (N.of_nat (length bits))
  <$> stride 8 0 (N.to_nat ((N.of_nat (length bits) + 7) / 8)).

(** [p] does not come after [q] in the order [std::sort] uses. *)
Definition path_le (p q : path) : Prop := path_ltb q p = false.

(** The paths the client lists, before sorting. *)
Definition video_paths (es : list (string * node)) : list path :=
  (fun e => D0 ++ [fst e]) <$> filter (fun e => decode_keeps e = true) es.

(** Ten sample bits, so two bytes. *)
Definition ten_bits : list Z := [1; 0; 1; 1; 0; 0; 0; 1; 1; 1]%Z.

(** * Properties *)

(** ** Computations: stepping through [bind] *)

Lemma bind_returns {A B : Type} (m : M A) (k : A -> M B) w a w' :
  m w = Returns a w' -> bind m k w = k a w'.
Proof. intros E. unfold bind. rewrite E. reflexivity. Qed.

Lemma bind_throws {A B : Type} (m : M A) (k : A -> M B) w w' :
  m w = Throws w' -> bind m k w = Throws w'.
Proof. intros E. unfold bind. rewrite E. reflexivity. Qed.

Lemma bind_undefined {A B : Type} (m : M A) (k : A -> M B) w :
  m w = Undefined -> bind m k w = Undefined.
Proof. intros E. unfold bind. rewrite E. reflexivity. Qed.

(** ** Bits read from a file *)

Lemma push_bits_app s : forall out, push_bits s out = out ++ bits_of s.
Proof.
  unfold bits_of.
  induction s as [|c s IH]; intros out; simpl.
  - symmetry. apply app_nil_r.
  - rewrite IH. rewrite (IH (push_bit c [])).
    unfold push_bit.
    destruct (Ascii.eqb c "0"); [|destruct (Ascii.eqb c "1")]; simpl.
    + rewrite <- app_assoc. reflexivity.
    + rewrite <- app_assoc. reflexivity.
    + reflexivity.
Qed.

Lemma bits_of_is_bit s : Forall is_bit (bits_of s).
Proof.
  unfold bits_of.
  assert (G : forall out, Forall is_bit out -> Forall is_bit (push_bits s out)).
  { induction s as [|c s IH]; intros out Hout; simpl; [exact Hout|].
    apply IH. unfold push_bit.
    destruct (Ascii.eqb c "0"); [|destruct (Ascii.eqb c "1")].
    - apply Forall_app. split; [exact Hout|]. repeat constructor.
    - apply Forall_app. split; [exact Hout|].
      constructor; [right; reflexivity | constructor].
    - exact Hout. }
  apply G. constructor.
Qed.

(** ** The query encoder *)

Lemma query_in_range (targetIndex : Z) (total : nat) :
  (0 <= targetIndex < Z.of_nat total)%Z ->
  client_generate_query targetIndex total
  = <[Z.to_nat targetIndex := 1%Z]> (replicate total 0%Z).
Proof.
  intros H. unfold client_generate_query.
  replace (0 <=? targetIndex)%Z with true by (symmetry; apply Z.leb_le; lia).
  replace (Z.to_nat targetIndex <? total) with true
    by (symmetry; apply Nat.ltb_lt; lia).
  reflexivity.
Qed.

Lemma query_out_of_range (targetIndex : Z) (total : nat) :
  ~ (0 <= targetIndex < Z.of_nat total)%Z ->
  client_generate_query targetIndex total = replicate total 0%Z.
Proof.
  intros H. unfold client_generate_query.
  destruct (0 <=? targetIndex)%Z eqn:E1; [|reflexivity].
  destruct (Z.to_nat targetIndex <? total) eqn:E2; [|reflexivity].
  exfalso. apply H. apply Z.leb_le in E1. apply Nat.ltb_lt in E2. lia.
Qed.

Lemma hamming_weight_zeros n : hamming_weight (replicate n 0%Z) = 0.
Proof.
  unfold hamming_weight. induction n as [|n IH]; simpl; [reflexivity|].
  rewrite filter_cons_False; [exact IH|]. intros H. apply H. reflexivity.
Qed.

Lemma hamming_weight_app l k :
  hamming_weight (l ++ k) = hamming_weight l + hamming_weight k.
Proof. unfold hamming_weight. rewrite filter_app. apply length_app. Qed.

Lemma query_entries (index : Z) (n : nat) :
  (0 <= index < Z.of_nat n)%Z ->
  client_generate_query index n !! Z.to_nat index = Some 1%Z
  /\ forall j, j < n -> j <> Z.to_nat index ->
               client_generate_query index n !! j = Some 0%Z.
Proof.
  intros H. rewrite (query_in_range _ _ H). split.
  - apply list_lookup_insert_eq. rewrite length_replicate. lia.
  - intros j Hj Hne. rewrite list_lookup_insert_ne by congruence.
    apply lookup_replicate_2. exact Hj.
Qed.

(** C7: for [0 <= index < n] the encoder returns [n] entries, a 1 at
    [index] and 0 everywhere else, so Hamming weight 1; with one record and
    index 0 it is the vector [[1]]. *)
Theorem query_is_one_hot (index : Z) (n : nat) :
  (0 <= index < Z.of_nat n)%Z ->
  let q := client_generate_query index n in
  length q = n
  /\ q !! Z.to_nat index = Some 1%Z
  /\ (forall j, j < n -> j <> Z.to_nat index -> q !! j = Some 0%Z)
  /\ hamming_weight q = 1
  /\ (n = 1 -> q = [1%Z]).
Proof.
  intros H q. subst q.
  destruct (query_entries _ _ H) as [Hone Hzero].
  assert (Hi : Z.to_nat index < n) by lia.
  split; [|split; [exact Hone | split; [exact Hzero | split]]];
    rewrite (query_in_range _ _ H).
  - rewrite length_insert. apply length_replicate.
  - rewrite insert_replicate_lt by exact Hi.
    rewrite hamming_weight_app.
    change (1%Z :: replicate (n - S (Z.to_nat index)) 0%Z)
      with ([1%Z] ++ replicate (n - S (Z.to_nat index)) 0%Z).
    rewrite hamming_weight_app. rewrite !hamming_weight_zeros.
    reflexivity.
  - intros ->. replace (Z.to_nat index) with 0 by lia. reflexivity.
Qed.

Lemma query_is_one_hot_single :
  (0 <= 0 < Z.of_nat 1)%Z
  /\ length (client_generate_query 0 1) = 1
  /\ client_generate_query 0 1 = [1%Z].
Proof.
  assert (H : (0 <= 0 < Z.of_nat 1)%Z) by (simpl; lia).
  split; [exact H|].
  destruct (query_is_one_hot 0 1 H) as (Hlen & _ & _ & _ & Hone).
  split; [exact Hlen | exact (Hone eq_refl)].
Defined.

(** ** The server loop *)

Lemma hit_spec (query : list Z) (i : nat) :
  (i <? length query) && (default 0%Z (query !! i) =? 1)%Z = true
  <-> query !! i = Some 1%Z.
Proof.
  destruct (query !! i) as [b|] eqn:E; simpl.
  - apply lookup_lt_Some in E as Hlt.
    replace (i <? length query) with true by (symmetry; apply Nat.ltb_lt; lia).
    simpl. rewrite Z.eqb_eq. split; congruence.
  - apply lookup_ge_None in E.
    replace (i <? length query) with false by (symmetry; apply Nat.ltb_ge; lia).
    simpl. split; discriminate.
Qed.

Lemma server_loop_first gen query :
  forall rest i k videoFile,
    rest !! k = Some videoFile ->
    query !! (i + k) = Some 1%Z ->
    (forall j, i <= j < i + k -> query !! j <> Some 1%Z) ->
    server_loop gen query i rest = process_video gen videoFile.
Proof.
  induction rest as [|f rest IH]; intros i k videoFile Hk Hq Hlow.
  - discriminate.
  - simpl. destruct k as [|k].
    + simpl in Hk. injection Hk as ->. rewrite Nat.add_0_r in Hq.
      apply hit_spec in Hq. rewrite Hq. reflexivity.
    + destruct ((i <? length query) && (default 0%Z (query !! i) =? 1)%Z) eqn:E.
      * apply hit_spec in E. exfalso. apply (Hlow i); [lia | exact E].
      * apply (IH (S i) k); [exact Hk | | ].
        -- replace (S i + k) with (i + S k) by lia. exact Hq.
        -- intros j Hj. apply Hlow. lia.
Qed.

Lemma server_loop_no_hit gen query :
  forall rest i,
    (forall j, i <= j -> query !! j <> Some 1%Z) ->
    server_loop gen query i rest = ret [].
Proof.
  induction rest as [|f rest IH]; intros i Hnone; simpl; [reflexivity|].
  destruct ((i <? length query) && (default 0%Z (query !! i) =? 1)%Z) eqn:E.
  - apply hit_spec in E. exfalso. apply (Hnone i); [lia | exact E].
  - apply IH. intros j Hj. apply Hnone. lia.
Qed.

Lemma server_query_selected gen query videoFiles i videoFile :
  selects query videoFiles i videoFile ->
  server_process_query gen query videoFiles = process_video gen videoFile.
Proof.
  intros (Hf & Hq & Hlow). unfold server_process_query.
  apply (server_loop_first gen query videoFiles 0 i); [exact Hf | exact Hq |].
  intros j Hj. apply Hlow. lia.
Qed.

Lemma one_hot_selects (k : nat) (videoFiles : list path) (videoFile : path) :
  videoFiles !! k = Some videoFile ->
  selects (client_generate_query (Z.of_nat k) (length videoFiles))
          videoFiles k videoFile.
Proof.
  intros Hk. apply lookup_lt_Some in Hk as Hlt.
  assert (Hr : (0 <= Z.of_nat k < Z.of_nat (length videoFiles))%Z) by lia.
  destruct (query_entries _ _ Hr) as [H1 H0].
  rewrite Nat2Z.id in H1, H0.
  split; [exact Hk | split; [exact H1|]].
  intros j Hj. rewrite H0 by lia. discriminate.
Qed.

Lemma process_video_cases gen videoFile w :
  process_video gen videoFile w =
  match resolve (D0 ++ videoFile) (disk w) with
  | None => Returns [] (World (disk w) (log w ++ take 1 (video_events videoFile)))
  | Some (Folder _) =>
      Throws (World (disk w) (log w ++ take 1 (video_events videoFile)))
  | Some (Regular s0) =>
      match resolve (D1 ++ videoFile) (disk w) with
      | None =>
          Returns [] (World (disk w) (log w ++ take 2 (video_events videoFile)))
      | Some (Folder _) =>
          Throws (World (disk w) (log w ++ take 2 (video_events videoFile)))
      | Some (Regular s1) =>
          after_reading gen videoFile w (bits_of s0) (bits_of s1)
      end
  end.
Proof.
  unfold process_video, readBitsFile, writeBitsFile, ifstream_read,
    ofstream_write, bind, ret, undefined, emit, after_reading, bits_of,
    video_events.
  destruct w as [d l]. cbn [disk log take].
  destruct (resolve (D0 ++ videoFile) d) as [[s0|?]|];
    cbn [fst snd negb disk log]; try reflexivity.
  destruct (resolve (D1 ++ videoFile) d) as [[s1|?]|];
    cbn [fst snd negb disk log]; rewrite <- ?app_assoc; try reflexivity.
  cbv zeta.
  destruct (masked_bits _ _ _ _ _) as [result|]; [|reflexivity].
  cbn [fst snd negb disk log].
  destruct (store r1_txt _ d) as [disk1|];
    cbn [fst snd negb disk log]; rewrite <- ?app_assoc; [|reflexivity].
  destruct (store r2_txt _ disk1) as [disk2|];
    cbn [fst snd negb disk log]; rewrite <- ?app_assoc; reflexivity.
Qed.

Lemma stored_share_regular dir videoFile n bits :
  stored_share dir videoFile n = Some bits ->
  exists s, resolve (dir ++ videoFile) n = Some (Regular s) /\ bits = bits_of s.
Proof.
  unfold stored_share.
  destruct (resolve (dir ++ videoFile) n) as [[s|?]|]; try discriminate.
  intros [= <-]. exists s. split; reflexivity.
Qed.

Lemma process_video_readable gen videoFile w d0Bits d1Bits :
  stored_share D0 videoFile (disk w) = Some d0Bits ->
  stored_share D1 videoFile (disk w) = Some d1Bits ->
  process_video gen videoFile w = after_reading gen videoFile w d0Bits d1Bits.
Proof.
  intros H0 H1.
  apply stored_share_regular in H0 as (s0 & E0 & ->).
  apply stored_share_regular in H1 as (s1 & E1 & ->).
  rewrite process_video_cases, E0, E1. reflexivity.
Qed.

Lemma after_reading_log gen videoFile w d0Bits d1Bits :
  after_reading gen videoFile w d0Bits d1Bits = Undefined
  \/ exists k, 1 <= k
       /\ log_of (after_reading gen videoFile w d0Bits d1Bits)
          = log w ++ take k (video_events videoFile).
Proof.
  unfold after_reading. cbv zeta.
  destruct (masked_bits _ _ _ _ _) as [result|]; [|left; reflexivity].
  destruct (store r1_txt _ _) as [disk1|];
    [|right; exists 3; split; [lia | reflexivity]].
  destruct (store r2_txt _ _) as [disk2|];
    right; exists 4; (split; [lia | reflexivity]).
Qed.

Lemma process_video_log gen videoFile w :
  process_video gen videoFile w = Undefined
  \/ exists k, 1 <= k
       /\ log_of (process_video gen videoFile w)
          = log w ++ take k (video_events videoFile).
Proof.
  rewrite process_video_cases.
  destruct (resolve (D0 ++ videoFile) (disk w)) as [[s0|?]|];
    [|right; exists 1; split; [lia | reflexivity]..].
  destruct (resolve (D1 ++ videoFile) (disk w)) as [[s1|?]|];
    [|right; exists 2; split; [lia | reflexivity]..].
  apply after_reading_log.
Qed.

(** C10: when [i] is the smallest index with [query[i] == 1], the server
    does exactly what processing video [i] alone does (its file-system calls
    concern that video only), whatever the entries after [i] hold; on an
    all-zero query it returns the empty vector and touches nothing. *)
Theorem first_set_bit_only gen query videoFiles w :
  (forall i videoFile,
      selects query videoFiles i videoFile ->
      server_process_query gen query videoFiles w
      = process_video gen videoFile w
      /\ (forall query',
             (forall j, j <= i -> query' !! j = query !! j) ->
             server_process_query gen query' videoFiles w
             = process_video gen videoFile w)
      /\ (process_video gen videoFile w = Undefined
          \/ exists k, 1 <= k
               /\ log_of (process_video gen videoFile w)
                  = log w ++ take k (video_events videoFile)))
  /\ (Forall (fun b => b = 0%Z) query ->
      server_process_query gen query videoFiles w = Returns [] w).
Proof.
  split.
  - intros i videoFile Hsel. split; [|split].
    + rewrite (server_query_selected _ _ _ _ _ Hsel). reflexivity.
    + intros query' Hsame.
      assert (Hsel' : selects query' videoFiles i videoFile).
      { destruct Hsel as (Hf & Hq & Hlow).
        split; [exact Hf | split].
        - rewrite Hsame by lia. exact Hq.
        - intros j Hj. rewrite Hsame by lia. apply Hlow. exact Hj. }
      rewrite (server_query_selected _ _ _ _ _ Hsel'). reflexivity.
    + apply process_video_log.
  - intros Hzero. unfold server_process_query.
    rewrite server_loop_no_hit; [reflexivity|].
    intros j _ Hj. rewrite Forall_lookup in Hzero.
    specialize (Hzero _ _ Hj). discriminate.
Qed.

Lemma first_set_bit_only_sample :
  selects [1%Z; 1%Z] [video_a; video_b] 0 video_a
  /\ server_process_query all_ones [1%Z; 1%Z] [video_a; video_b]
       (World two_videos [])
     = process_video all_ones video_a (World two_videos [])
  /\ server_process_query all_ones [0%Z; 0%Z] [video_a; video_b]
       (World two_videos [])
     = Returns [] (World two_videos []).
Proof.
  assert (Hsel : selects [1%Z; 1%Z] [video_a; video_b] 0 video_a).
  { split; [reflexivity | split; [reflexivity|]]. intros j Hj. lia. }
  split; [exact Hsel | split].
  - exact (proj1 (proj1 (first_set_bit_only all_ones [1%Z; 1%Z]
                           [video_a; video_b] (World two_videos []))
                    0 video_a Hsel)).
  - apply (proj2 (first_set_bit_only all_ones [0%Z; 0%Z]
                    [video_a; video_b] (World two_videos []))).
    repeat constructor.
Defined.

(** ** The client decoder *)

Lemma readBitsFile_cases p out w :
  readBitsFile p out w =
  match resolve p (disk w) with
  | Some (Regular s) => Returns (true, out ++ bits_of s) (emit (EvOpenIn p) w)
  | Some (Folder _) => Throws (emit (EvOpenIn p) w)
  | None => Returns (false, out) (emit (EvOpenIn p) w)
  end.
Proof.
  unfold readBitsFile, ifstream_read, bind, ret.
  destruct (resolve p (disk w)) as [[s|?]|]; try reflexivity.
  rewrite push_bits_app. reflexivity.
Qed.

Lemma decode_cases (serverResponse : list Z) (targetIndex : nat) (w : world) :
  client_decode_pir_result serverResponse targetIndex w
  = match decode_blocked (disk w) with
    | Some calls => Throws (World (disk w) (log w ++ calls))
    | None =>
        read_original targetIndex
          (World (disk w) (log w ++ decode_prelude (disk w)))
    end.
Proof.
  destruct w as [d l].
  unfold client_decode_pir_result, decode_prelude, decode_blocked, fs_exists,
    readBitsFile, ifstream_read, bind, ret, emit, is_folder.
  cbn [disk log].
  destruct (bool_decide (is_Some (resolve r1_txt d)));
    cbn [disk log negb orb andb]; [|reflexivity].
  destruct (bool_decide (is_Some (resolve r2_txt d)));
    cbn [disk log negb orb andb]; rewrite <- ?app_assoc; [|reflexivity].
  destruct (resolve r1_txt d) as [[?|?]|]; cbn [disk log];
    destruct (resolve r2_txt d) as [[?|?]|]; cbn [disk log];
    rewrite <- ?app_assoc; reflexivity.
Qed.

Lemma decode_blocked_regular n s1 s2 :
  resolve r1_txt n = Some (Regular s1) ->
  resolve r2_txt n = Some (Regular s2) ->
  decode_blocked n = None.
Proof.
  intros E1 E2. unfold decode_blocked. rewrite E1, E2. reflexivity.
Qed.


(** C5: the decoder returns the same outcome for any two server responses.
    When both mask files exist and one of them is a folder, that outcome is
    the exception of the read of the folder; otherwise it is the re-read of
    the [D0] listing on the same disk. *)
Theorem decode_ignores_server_response
    (serverResponse1 serverResponse2 : list Z) (targetIndex : nat) (w : world) :
  client_decode_pir_result serverResponse1 targetIndex w
  = client_decode_pir_result serverResponse2 targetIndex w
  /\ client_decode_pir_result serverResponse1 targetIndex w
     = match decode_blocked (disk w) with
       | Some calls => Throws (World (disk w) (log w ++ calls))
       | None =>
           read_original targetIndex
             (World (disk w) (log w ++ decode_prelude (disk w)))
       end.
Proof.
  split; [reflexivity | apply decode_cases].
Qed.

(** C6, as stated, fails: at index -1 and at index n (here n = 3) the
    encoder returns a vector, the all-zero one, and signals nothing. *)
Lemma encoder_accepts_invalid_index :
  client_generate_query (-1) 3 = [0%Z; 0%Z; 0%Z]
  /\ client_generate_query 3 3 = [0%Z; 0%Z; 0%Z].
Proof. split; reflexivity. Qed.

(** C6, amended: for an index outside [0, n) the encoder returns the
    all-zero vector of length [n]; the range check is [main]'s, which stops
    right after the setup and never reaches the encoder. *)
Theorem invalid_index_stops_in_main (index : Z) (n : nat) :
  ~ (0 <= index < Z.of_nat n)%Z ->
  client_generate_query index n = replicate n 0%Z
  /\ forall gen w videoFiles w',
       setup_server_database w = Returns videoFiles w' ->
       length videoFiles = n ->
       pir_main gen index w = Returns None w'.
Proof.
  intros Hout. split; [apply query_out_of_range; exact Hout|].
  intros gen w videoFiles w' Hsetup Hlen.
  unfold pir_main. rewrite (bind_returns _ _ _ _ _ Hsetup).
  destruct videoFiles as [|f fs]; [reflexivity|].
  replace ((index <? 0)%Z || (length (f :: fs) <=? Z.to_nat index)) with true;
    [reflexivity|].
  symmetry. apply orb_true_iff.
  destruct (Z.ltb_spec index 0) as [Hneg|Hpos]; [left; reflexivity|].
  right. apply Nat.leb_le. lia.
Qed.

Lemma invalid_index_stops_in_main_sample :
  ~ (0 <= -1 < Z.of_nat 2)%Z
  /\ client_generate_query (-1) 2 = [0%Z; 0%Z]
  /\ pir_main all_ones (-1) (World two_videos [])
     = Returns None (World two_videos [EvExists D0; EvIterate D0]).
Proof.
  assert (Hout : ~ (0 <= -1 < Z.of_nat 2)%Z) by lia.
  split; [exact Hout|].
  destruct (invalid_index_stops_in_main (-1) 2 Hout) as [Hq Hmain].
  split; [exact Hq|].
  apply (Hmain all_ones (World two_videos []) [video_a; video_b]);
    reflexivity.
Defined.

(** ** The replicas are never written *)

Lemma assoc_update_ne {A : Type} (c c' : string) (v : A) es :
  c' <> c -> assoc c' (update c v es) = assoc c' es.
Proof.
  intros Hne. induction es as [|[k x] es IH]; simpl.
  - destruct (String.eqb_spec c' c); [contradiction | reflexivity].
  - destruct (String.eqb_spec c k) as [->|Hck]; simpl.
    + destruct (String.eqb_spec c' k); [contradiction | reflexivity].
    + destruct (String.eqb_spec c' k); [reflexivity | exact IH].
Qed.

Lemma assoc_update_eq {A : Type} (c : string) (v : A) es :
  assoc c (update c v es) = Some v.
Proof.
  induction es as [|[k x] es IH]; simpl.
  - rewrite String.eqb_refl. reflexivity.
  - destruct (String.eqb_spec c k) as [->|Hck]; simpl.
    + rewrite String.eqb_refl. reflexivity.
    + destruct (String.eqb_spec c k); [contradiction | exact IH].
Qed.

Lemma store_elsewhere c p data n n' c' q :
  store (c :: p) data n = Some n' -> c' <> c ->
  resolve (c' :: q) n' = resolve (c' :: q) n.
Proof.
  intros Hst Hne. destruct n as [s|es]; [discriminate|].
  simpl in Hst.
  destruct (assoc c es) as [m|].
  - destruct (store p data m) as [m'|]; [|discriminate].
    injection Hst as <-. simpl. rewrite assoc_update_ne by exact Hne.
    reflexivity.
  - destruct p; [|discriminate].
    injection Hst as <-. simpl. rewrite assoc_update_ne by exact Hne.
    reflexivity.
Qed.

Lemma same_replicas_refl d : same_replicas d d.
Proof. split; reflexivity. Qed.

Lemma same_replicas_trans d1 d2 d3 :
  same_replicas d1 d2 -> same_replicas d2 d3 -> same_replicas d1 d3.
Proof. intros [A0 A1] [B0 B1]. split; congruence. Qed.

Lemma keeps_ret {A : Type} (a : A) : keeps_replicas (ret a).
Proof. intros w d' H. injection H as <-. apply same_replicas_refl. Qed.

Lemma keeps_undefined {A : Type} : keeps_replicas (@undefined A).
Proof. intros w d' H. discriminate. Qed.

Lemma keeps_bind {A B : Type} (m : M A) (k : A -> M B) :
  keeps_replicas m -> (forall a, keeps_replicas (k a)) ->
  keeps_replicas (bind m k).
Proof.
  intros Hm Hk w d' H. unfold bind in H.
  destruct (m w) as [a w1| w1|] eqn:E.
  - apply (same_replicas_trans _ (disk w1)).
    + apply (Hm w). rewrite E. reflexivity.
    + apply (Hk a w1). exact H.
  - apply (Hm w). rewrite E. exact H.
  - discriminate.
Qed.

Lemma keeps_fs_exists p : keeps_replicas (fs_exists p).
Proof. intros w d' H. injection H as <-. apply same_replicas_refl. Qed.

Lemma keeps_directory_iterator p : keeps_replicas (directory_iterator p).
Proof.
  intros w d' H. unfold directory_iterator in H.
  destruct (resolve p (disk w)) as [[?|?]|]; injection H as <-;
    apply same_replicas_refl.
Qed.

Lemma keeps_readBitsFile p out : keeps_replicas (readBitsFile p out).
Proof.
  intros w d' H. rewrite readBitsFile_cases in H.
  destruct (resolve p (disk w)) as [[?|?]|]; injection H as <-;
    apply same_replicas_refl.
Qed.

Lemma keeps_writeBitsFile c bits :
  c <> "D0" -> c <> "D1" -> keeps_replicas (writeBitsFile [c] bits).
Proof.
  intros H0 H1 w d' H. unfold writeBitsFile, ofstream_write in H.
  destruct (store [c] (bits_text bits) (disk w)) as [d|] eqn:E.
  - injection H as <-. split; cbn [disk]; unfold D0, D1.
    + apply (store_elsewhere _ _ _ _ _ _ _ E). congruence.
    + apply (store_elsewhere _ _ _ _ _ _ _ E). congruence.
  - injection H as <-. apply same_replicas_refl.
Qed.

Create HintDb replicas.
#[local] Hint Resolve keeps_ret keeps_undefined keeps_fs_exists
  keeps_directory_iterator keeps_readBitsFile : replicas.

Ltac keeps_step :=
  match goal with
  | |- keeps_replicas (bind _ _) => apply keeps_bind; [|intros ?]
  | |- keeps_replicas (if ?b then _ else _) => destruct b
  | |- keeps_replicas (match ?x with _ => _ end) => destruct x
  | |- keeps_replicas (writeBitsFile _ _) =>
      apply keeps_writeBitsFile; discriminate
  | |- _ => solve [auto with replicas]
  end.

Lemma keeps_setup : keeps_replicas setup_server_database.
Proof. unfold setup_server_database. repeat keeps_step. Qed.

Lemma keeps_process_video gen videoFile :
  keeps_replicas (process_video gen videoFile).
Proof. unfold process_video. repeat keeps_step. Qed.

Lemma keeps_server gen query videoFiles :
  keeps_replicas (server_process_query gen query videoFiles).
Proof.
  unfold server_process_query. generalize 0.
  induction videoFiles as [|f fs IH]; intros i; simpl.
  - apply keeps_ret.
  - destruct ((i <? length query) && (default 0%Z (query !! i) =? 1)%Z).
    + apply keeps_process_video.
    + apply IH.
Qed.

Lemma keeps_decode serverResponse targetIndex :
  keeps_replicas (client_decode_pir_result serverResponse targetIndex).
Proof.
  unfold client_decode_pir_result, read_original, list_videos.
  repeat keeps_step.
Qed.

Lemma keeps_run_query gen videoFiles targetIndex :
  keeps_replicas (run_query gen videoFiles targetIndex).
Proof.
  unfold run_query. apply keeps_bind; [apply keeps_server|].
  intros resp. apply keeps_decode.
Qed.

Lemma keeps_main gen targetIndex : keeps_replicas (pir_main gen targetIndex).
Proof.
  unfold pir_main. apply keeps_bind; [apply keeps_setup|].
  intros videoFiles. destruct videoFiles; [apply keeps_ret|].
  destruct (_ || _); [apply keeps_ret|].
  apply keeps_bind; [apply keeps_run_query|]. intros ?. apply keeps_ret.
Qed.

Lemma resolve_app p q : forall n,
  resolve (p ++ q) n
  = match resolve p n with Some m => resolve q m | None => None end.
Proof.
  induction p as [|c p IH]; intros n; simpl; [reflexivity|].
  destruct n as [s|es]; [reflexivity|].
  destruct (assoc c es) as [m|]; [apply IH | reflexivity].
Qed.

Lemma stored_share_same d d' videoFile :
  same_replicas d d' ->
  stored_share D0 videoFile d' = stored_share D0 videoFile d
  /\ stored_share D1 videoFile d' = stored_share D1 videoFile d.
Proof.
  intros [H0 H1]. unfold stored_share.
  rewrite !resolve_app, H0, H1. split; reflexivity.
Qed.

Lemma share_invariantb_same d d' videoFile record :
  same_replicas d d' ->
  share_invariantb d' videoFile record = share_invariantb d videoFile record.
Proof.
  intros H. destruct (stored_share_same _ _ videoFile H) as [H0 H1].
  unfold share_invariantb. rewrite H0, H1. reflexivity.
Qed.

Lemma setup_same_disk w d' :
  disk_of (setup_server_database w) = Some d' -> d' = disk w.
Proof.
  unfold setup_server_database, fs_exists, directory_iterator, bind, ret, emit.
  cbn [disk log].
  destruct (negb _); cbn [disk_of disk]; [congruence|].
  destruct (resolve D0 (disk w)) as [[?|es]|]; cbn [disk_of disk];
    try congruence.
  destruct (_ <$> _); cbn [disk_of disk]; congruence.
Qed.

(** C3, as stated, fails on a disk with one video in [D0] and no [D1]:
    the setup lists the video, and no record is the XOR of its two shares,
    one of which does not exist. *)
Lemma setup_does_not_split :
  ~ setup_establishes_shares_at (World lone_replica []).
Proof.
  intros H.
  destruct (H [video_a] (World lone_replica [EvExists D0; EvIterate D0])
              eq_refl video_a) as [record Hr].
  - apply list_elem_of_here.
  - vm_compute in Hr. discriminate.
Qed.

(** C3, amended: the setup only lists [D0] and leaves the disk as it is;
    it creates no shares.  A pair of stored shares that XOR to a record
    before the setup, a server evaluation, a client decoding or a run of
    [main] up to the decoded bits still does so afterwards: none of them
    writes under [D0] or [D1]. *)
Theorem stored_shares_survive gen query videoFiles serverResponse targetIndex
    index w videoFile record :
  share_invariantb (disk w) videoFile record = true ->
  (forall d', disk_of (setup_server_database w) = Some d' -> d' = disk w)
  /\ (forall d', disk_of (server_process_query gen query videoFiles w) = Some d' ->
                share_invariantb d' videoFile record = true)
  /\ (forall d', disk_of (client_decode_pir_result serverResponse targetIndex w)
                = Some d' ->
                share_invariantb d' videoFile record = true)
  /\ (forall d', disk_of (pir_main gen index w) = Some d' ->
                share_invariantb d' videoFile record = true).
Proof.
  intros Hinv. split; [apply setup_same_disk|].
  split; [|split]; intros d' Hd.
  - rewrite (share_invariantb_same (disk w)); [exact Hinv|].
    exact (keeps_server gen query videoFiles w d' Hd).
  - rewrite (share_invariantb_same (disk w)); [exact Hinv|].
    exact (keeps_decode serverResponse targetIndex w d' Hd).
  - rewrite (share_invariantb_same (disk w)); [exact Hinv|].
    exact (keeps_main gen index w d' Hd).
Qed.

Lemma stored_shares_survive_sample :
  share_invariantb two_videos video_b [0%Z] = true
  /\ forall d',
       disk_of (pir_main all_ones 1 (World two_videos [])) = Some d' ->
       share_invariantb d' video_b [0%Z] = true.
Proof.
  assert (Hinv : share_invariantb (disk (World two_videos [])) video_b [0%Z]
                 = true) by reflexivity.
  split; [exact Hinv|].
  exact (proj2 (proj2 (proj2
    (stored_shares_survive all_ones [] [] [] 0 1 (World two_videos [])
       video_b [0%Z] Hinv)))).
Defined.

(** ** The blinded response *)

Lemma gen_r1_lookup gen n j :
  j < n -> gen_r1 gen n !! j = Some (Z.b2z (gen (2 * j))).
Proof.
  intros Hj. unfold gen_r1. rewrite list_lookup_fmap, lookup_seq_lt by exact Hj.
  reflexivity.
Qed.

Lemma gen_r2_lookup gen n j :
  j < n -> gen_r2 gen n !! j = Some (Z.b2z (gen (2 * j + 1))).
Proof.
  intros Hj. unfold gen_r2. rewrite list_lookup_fmap, lookup_seq_lt by exact Hj.
  reflexivity.
Qed.

Lemma masked_bits_some d0Bits d1Bits r1 r2 :
  forall n s,
    s + n <= length d0Bits -> s + n <= length d1Bits ->
    s + n <= length r1 -> s + n <= length r2 ->
    exists result,
      masked_bits d0Bits d1Bits r1 r2 (seq s n) = Some result
      /\ length result = n
      /\ forall j, j < n ->
           result !! j = masked_bit d0Bits d1Bits r1 r2 (s + j).
Proof.
  induction n as [|n IH]; intros s H0 H1 H2 H3; simpl.
  - exists []. split; [reflexivity | split; [reflexivity|]]. intros j Hj. lia.
  - destruct (IH (S s)) as (rest & Hrest & Hlen & Hnth); try lia.
    destruct (lookup_lt_is_Some_2 d0Bits s) as [a Ha]; [lia|].
    destruct (lookup_lt_is_Some_2 d1Bits s) as [b Hb]; [lia|].
    destruct (lookup_lt_is_Some_2 r1 s) as [x Hx]; [lia|].
    destruct (lookup_lt_is_Some_2 r2 s) as [y Hy]; [lia|].
    assert (Hs : masked_bit d0Bits d1Bits r1 r2 s
                 = Some (Z.land (a * x + b * y) 1)).
    { unfold masked_bit. rewrite Ha, Hb, Hx, Hy. reflexivity. }
    rewrite Hs, Hrest. eexists. split; [reflexivity|].
    split; [simpl; lia|].
    intros [|j] Hj; simpl.
    + rewrite Nat.add_0_r. symmetry. exact Hs.
    + rewrite Hnth by lia. f_equal. lia.
Qed.

Lemma blend_bits a b x y :
  is_bit a -> is_bit b -> is_bit x -> is_bit y ->
  Z.land (a * x + b * y) 1 = Z.lxor (Z.land a x) (Z.land b y).
Proof.
  intros [-> | ->] [-> | ->] [-> | ->] [-> | ->]; reflexivity.
Qed.

Lemma is_bit_b2z b : is_bit (Z.b2z b).
Proof. destruct b; [right | left]; reflexivity. Qed.

Lemma stored_share_is_bit dir videoFile d bits :
  stored_share dir videoFile d = Some bits -> Forall is_bit bits.
Proof.
  unfold stored_share.
  destruct (resolve (dir ++ videoFile) d) as [[s|?]|]; try discriminate.
  intros H. injection H as <-. apply bits_of_is_bit.
Qed.

Lemma store_file c data es :
  is_folder (assoc c es) = false ->
  store [c] data (Folder es) = Some (Folder (update c (Regular data) es)).
Proof.
  intros H. simpl. destruct (assoc c es) as [[s|es']|]; simpl in *;
    [reflexivity | discriminate | reflexivity].
Qed.

Section SelectedVideo.

Variables (gen : draws) (videoFile : path) (w : world).
Variables (es : list (string * node)) (d0Bits d1Bits : list Z).
Hypothesis Hdisk : disk w = Folder es.
Hypothesis Hshare0 : stored_share D0 videoFile (disk w) = Some d0Bits.
Hypothesis Hshare1 : stored_share D1 videoFile (disk w) = Some d1Bits.
Hypothesis Hlen : length d0Bits <= length d1Bits.
Hypothesis Hr1 : is_folder (assoc "r1.txt" es) = false.
Hypothesis Hr2 : is_folder (assoc "r2.txt" es) = false.

(** A readable video whose [D1] file is at least as long as its [D0] file,
    with [r1.txt] and [r2.txt] writable: the body runs to its last line. *)
Lemma process_video_success :
  exists result,
    process_video gen videoFile w
    = Returns result
        (World (Folder (update "r2.txt"
                          (Regular (bits_text (gen_r2 gen (length d0Bits))))
                          (update "r1.txt"
                             (Regular (bits_text (gen_r1 gen (length d0Bits))))
                             es)))
               (log w ++ video_events videoFile))
    /\ length result = length d0Bits
    /\ forall j a b,
         d0Bits !! j = Some a -> d1Bits !! j = Some b ->
         result !! j
         = Some (Z.lxor (Z.land a (Z.b2z (gen (2 * j))))
                        (Z.land b (Z.b2z (gen (2 * j + 1))))).
Proof.
  destruct (masked_bits_some d0Bits d1Bits (gen_r1 gen (length d0Bits))
              (gen_r2 gen (length d0Bits)) (length d0Bits) 0)
    as (result & Hres & Hreslen & Hnth).
  { lia. } { lia. }
  { unfold gen_r1. rewrite length_fmap, length_seq. lia. }
  { unfold gen_r2. rewrite length_fmap, length_seq. lia. }
  exists result. split; [|split; [exact Hreslen|]].
  - rewrite (process_video_readable _ _ _ _ _ Hshare0 Hshare1).
    unfold after_reading. cbv zeta. rewrite Hres, Hdisk.
    unfold r1_txt, r2_txt.
    rewrite (store_file _ _ _ Hr1).
    rewrite store_file; [reflexivity|].
    rewrite assoc_update_ne by discriminate. exact Hr2.
  - intros j a b Ha Hb.
    apply lookup_lt_Some in Ha as Hj.
    rewrite Hnth by exact Hj. simpl.
    unfold masked_bit.
    rewrite Ha, Hb, gen_r1_lookup, gen_r2_lookup by exact Hj.
    f_equal. apply blend_bits.
    + apply stored_share_is_bit in Hshare0.
      rewrite Forall_lookup in Hshare0. exact (Hshare0 _ _ Ha).
    + apply stored_share_is_bit in Hshare1.
      rewrite Forall_lookup in Hshare1. exact (Hshare1 _ _ Hb).
    + apply is_bit_b2z.
    + apply is_bit_b2z.
Qed.

End SelectedVideo.

(** C4, as stated, fails for the query [[0; 1]] on the two sample videos,
    with every random draw equal to 1: the response is [[0]], while the inner
    product of the query with the shares of [D0], and with those of [D1], has
    bit 0 equal to 1. *)
Lemma evaluator_is_not_inner_product :
  ~ evaluator_is_inner_product_at D0 all_ones [0%Z; 1%Z] [video_a; video_b]
      (World two_videos [])
  /\ ~ evaluator_is_inner_product_at D1 all_ones [0%Z; 1%Z] [video_a; video_b]
        (World two_videos []).
Proof.
  split; intros H.
  - pose proof (H [0%Z] _ eq_refl 0 (le_n 1)) as H0.
    vm_compute in H0. discriminate.
  - pose proof (H [0%Z] _ eq_refl 0 (le_n 1)) as H0.
    vm_compute in H0. discriminate.
Qed.

(** C4, amended: the response concerns the first selected video only.  When
    its two files are readable, the [D1] one at least as long as the [D0]
    one, and the mask files can be written, the response has the length
    of the [D0] file and its bit [j] is
    [(D0[j] AND r1[j]) XOR (D1[j] AND r2[j])], with [r1], [r2] the fresh
    random bits; no other video contributes. *)
Theorem evaluator_blends_selected_video gen query videoFiles i videoFile w
    es d0Bits d1Bits :
  selects query videoFiles i videoFile ->
  disk w = Folder es ->
  stored_share D0 videoFile (disk w) = Some d0Bits ->
  stored_share D1 videoFile (disk w) = Some d1Bits ->
  length d0Bits <= length d1Bits ->
  is_folder (assoc "r1.txt" es) = false ->
  is_folder (assoc "r2.txt" es) = false ->
  exists response w',
    server_process_query gen query videoFiles w = Returns response w'
    /\ length response = length d0Bits
    /\ forall j a b,
         d0Bits !! j = Some a -> d1Bits !! j = Some b ->
         response !! j
         = Some (Z.lxor (Z.land a (Z.b2z (gen (2 * j))))
                        (Z.land b (Z.b2z (gen (2 * j + 1))))).
Proof.
  intros Hsel Hdisk H0 H1 Hlen Hr1 Hr2.
  destruct (process_video_success gen videoFile w es d0Bits d1Bits
              Hdisk H0 H1 Hlen Hr1 Hr2) as (result & Hrun & Hl & Hbits).
  exists result. eexists.
  rewrite (server_query_selected _ _ _ _ _ Hsel).
  split; [exact Hrun | split; [exact Hl | exact Hbits]].
Qed.

Lemma evaluator_blends_selected_video_sample :
  selects [0%Z; 1%Z] [video_a; video_b] 1 video_b
  /\ exists response w',
       server_process_query all_ones [0%Z; 1%Z] [video_a; video_b]
         (World two_videos []) = Returns response w'
       /\ length response = 1
       /\ response !! 0 = Some 0%Z.
Proof.
  assert (Hsel : selects [0%Z; 1%Z] [video_a; video_b] 1 video_b).
  { split; [reflexivity | split; [reflexivity|]].
    intros j Hj. assert (j = 0) as -> by lia. discriminate. }
  split; [exact Hsel|].
  destruct (evaluator_blends_selected_video all_ones [0%Z; 1%Z]
              [video_a; video_b] 1 video_b (World two_videos [])
              _ [1%Z] [1%Z] Hsel eq_refl eq_refl eq_refl (le_n 1)
              eq_refl eq_refl) as (response & w' & Hrun & Hl & Hbits).
  exists response, w'. split; [exact Hrun | split; [exact Hl|]].
  exact (Hbits 0 1%Z 1%Z eq_refl eq_refl).
Defined.

(** C9, as stated, fails for the query [[0; 1]] on the two sample videos:
    after the server has answered, the disk is not the one it started from
    (it now holds [r1.txt] and [r2.txt]). *)
Lemma query_writes_masks :
  ~ query_writes_nothing_at all_ones [0%Z; 1%Z] [video_a; video_b]
      (World two_videos []).
Proof.
  intros H. pose proof (H _ eq_refl) as H0. vm_compute in H0. discriminate.
Qed.

(** C9, amended: whenever the server runs the selected video to its last
    line (files readable, [D1] at least as long as [D0], mask files
    writable), it leaves the per-query random bits [r1] and [r2] on disk, in
    clear, as [r1.txt] and [r2.txt] of the working directory; [D0] and [D1]
    are as before, and the file-system calls are the two reads and the two
    writes. *)
Theorem masks_left_on_disk gen query videoFiles i videoFile w es
    d0Bits d1Bits :
  selects query videoFiles i videoFile ->
  disk w = Folder es ->
  stored_share D0 videoFile (disk w) = Some d0Bits ->
  stored_share D1 videoFile (disk w) = Some d1Bits ->
  length d0Bits <= length d1Bits ->
  is_folder (assoc "r1.txt" es) = false ->
  is_folder (assoc "r2.txt" es) = false ->
  exists response d',
    server_process_query gen query videoFiles w
    = Returns response (World d' (log w ++ video_events videoFile))
    /\ resolve r1_txt d'
       = Some (Regular (bits_text (gen_r1 gen (length d0Bits))))
    /\ resolve r2_txt d'
       = Some (Regular (bits_text (gen_r2 gen (length d0Bits))))
    /\ same_replicas (disk w) d'.
Proof.
  intros Hsel Hdisk H0 H1 Hlen Hr1 Hr2.
  destruct (process_video_success gen videoFile w es d0Bits d1Bits
              Hdisk H0 H1 Hlen Hr1 Hr2) as (result & Hrun & _).
  rewrite <- (server_query_selected _ _ _ _ _ Hsel) in Hrun.
  exists result. eexists. split; [exact Hrun|].
  split; [|split].
  - unfold r1_txt. simpl. rewrite assoc_update_ne by discriminate.
    rewrite assoc_update_eq. reflexivity.
  - unfold r2_txt. simpl. rewrite assoc_update_eq. reflexivity.
  - apply (keeps_server gen query videoFiles w). rewrite Hrun. reflexivity.
Qed.

Lemma masks_left_on_disk_sample :
  selects [0%Z; 1%Z] [video_a; video_b] 1 video_b
  /\ exists response d',
       server_process_query all_ones [0%Z; 1%Z] [video_a; video_b]
         (World two_videos [])
       = Returns response (World d' (video_events video_b))
       /\ resolve r1_txt d' = Some (Regular "1")
       /\ resolve r2_txt d' = Some (Regular "1").
Proof.
  assert (Hsel : selects [0%Z; 1%Z] [video_a; video_b] 1 video_b).
  { split; [reflexivity | split; [reflexivity|]].
    intros j Hj. assert (j = 0) as -> by lia. discriminate. }
  split; [exact Hsel|].
  destruct (masks_left_on_disk all_ones [0%Z; 1%Z]
              [video_a; video_b] 1 video_b (World two_videos [])
              _ [1%Z] [1%Z] Hsel eq_refl eq_refl eq_refl (le_n 1)
              eq_refl eq_refl) as (response & d' & Hrun & Hm1 & Hm2 & _).
  exists response, d'. split; [exact Hrun | split; [exact Hm1 | exact Hm2]].
Defined.

(** ** The whole query *)

Lemma xor_bits_cancel : forall a b : list Z,
  length a = length b -> xor_bits (xor_bits a b) b = a.
Proof.
  unfold xor_bits.
  induction a as [|x a IH]; intros [|y b] Hlen; simpl in *;
    try discriminate; [reflexivity|].
  f_equal.
  - rewrite Z.lxor_assoc, Z.lxor_nilpotent. apply Z.lxor_0_r.
  - apply IH. lia.
Qed.

Lemma share_invariantb_true d videoFile record :
  share_invariantb d videoFile record = true ->
  exists a b,
    stored_share D0 videoFile d = Some a
    /\ stored_share D1 videoFile d = Some b
    /\ length a = length record /\ length b = length record
    /\ xor_bits a b = record.
Proof.
  unfold share_invariantb.
  destruct (stored_share D0 videoFile d) as [a|]; [|discriminate].
  destruct (stored_share D1 videoFile d) as [b|]; [|discriminate].
  intros H. apply andb_true_iff in H as [H Hx].
  apply andb_true_iff in H as [Ha Hb].
  apply Nat.eqb_eq in Ha. apply Nat.eqb_eq in Hb.
  apply bool_decide_eq_true in Hx.
  exists a, b. repeat split; assumption.
Qed.

Lemma process_video_returns gen videoFile w d0Bits d1Bits :
  stored_share D0 videoFile (disk w) = Some d0Bits ->
  stored_share D1 videoFile (disk w) = Some d1Bits ->
  length d0Bits <= length d1Bits ->
  exists response w', process_video gen videoFile w = Returns response w'.
Proof.
  intros H0 H1 Hlen.
  destruct (masked_bits_some d0Bits d1Bits (gen_r1 gen (length d0Bits))
              (gen_r2 gen (length d0Bits)) (length d0Bits) 0)
    as (result & Hres & _).
  { lia. } { lia. }
  { unfold gen_r1. rewrite length_fmap, length_seq. lia. }
  { unfold gen_r2. rewrite length_fmap, length_seq. lia. }
  rewrite (process_video_readable _ _ _ _ _ H0 H1).
  unfold after_reading. cbv zeta. rewrite Hres.
  destruct (store r1_txt _ _) as [disk1|]; [|eexists; eexists; reflexivity].
  destruct (store r2_txt _ _) as [disk2|]; eexists; eexists; reflexivity.
Qed.

Lemma client_listing_same d d' :
  same_replicas d d' -> client_listing d' = client_listing d.
Proof. intros [H0 _]. unfold client_listing. rewrite H0. reflexivity. Qed.

Lemma read_original_at k w files videoFile d0Bits :
  client_listing (disk w) = Some files ->
  files !! k = Some (D0 ++ videoFile) ->
  stored_share D0 videoFile (disk w) = Some d0Bits ->
  exists w', read_original k w = Returns d0Bits w'.
Proof.
  unfold client_listing, stored_share. intros Hlist Hk Hshare.
  destruct w as [d l]. cbn [disk] in *.
  unfold read_original, list_videos, directory_iterator, readBitsFile,
    ifstream_read, bind, ret, emit. cbn [disk log].
  destruct (resolve D0 d) as [[?|es]|]; try discriminate.
  assert (E : forall fl, Some fl = Some files -> fl !! k = Some (D0 ++ videoFile))
    by (intros fl [= ->]; exact Hk).
  cbn [disk log].
  match goal with
  | |- context [match ?o with Some _ => _ | None => _ end (World d ?l0)] =>
      replace o with (Some (D0 ++ videoFile)) by (symmetry; exact (E _ Hlist))
  end.
  cbn [disk log].
  destruct (resolve (D0 ++ videoFile) d) as [[s|?]|]; try discriminate.
  injection Hshare as <-. eexists. reflexivity.
Qed.

(** C1, as stated, fails on the two sample videos for [k = 1]: both folders
    store the bit 1 for that video, so its record is [[0]], and the query
    returns [[1]]. *)
Lemma pipeline_returns_a_share :
  ~ pipeline_correct_at all_ones (World two_videos [])
      [[0%Z]; [0%Z]] 1.
Proof.
  intros H.
  destruct (H [video_a; video_b]
              (World two_videos [EvExists D0; EvIterate D0]) [0%Z]
              eq_refl eq_refl) as [w' Hw'].
  - intros i f r Hf Hr. destruct i as [|[|i]]; cbn in Hf, Hr.
    + injection Hf as <-. injection Hr as <-. reflexivity.
    + injection Hf as <-. injection Hr as <-. reflexivity.
    + discriminate.
  - reflexivity.
  - vm_compute in Hw'. discriminate.
Qed.

(** C1, amended: for a valid index [k] whose video has shares that XOR to
    its record, and which sits at position [k] of the client's sorted
    listing too, on a disk where neither [r1.txt] nor [r2.txt] is a folder,
    the query returns the bits stored in [D0] for that video, that is
    [Share_A[k] = Record[k] XOR Share_B[k]]: neither [D1] nor the server's
    response enters the result. *)
Theorem pipeline_returns_D0_file gen videoFiles k videoFile w record files es :
  videoFiles !! k = Some videoFile ->
  share_invariantb (disk w) videoFile record = true ->
  client_listing (disk w) = Some files ->
  files !! k = Some (D0 ++ videoFile) ->
  disk w = Folder es ->
  is_folder (assoc "r1.txt" es) = false ->
  is_folder (assoc "r2.txt" es) = false ->
  exists d0Bits d1Bits w',
    stored_share D0 videoFile (disk w) = Some d0Bits
    /\ stored_share D1 videoFile (disk w) = Some d1Bits
    /\ run_query gen videoFiles (Z.of_nat k) w = Returns d0Bits w'
    /\ d0Bits = xor_bits record d1Bits.
Proof.
  intros Hk Hinv Hlist Hfile Hdisk Hr1 Hr2.
  destruct (share_invariantb_true _ _ _ Hinv)
    as (a & b & Ha & Hb & Hla & Hlb & Hxor).
  exists a, b.
  assert (Hlen : length a <= length b) by lia.
  destruct (process_video_success gen videoFile w es a b
              Hdisk Ha Hb Hlen Hr1 Hr2) as (response & Hrun & _).
  rewrite <- (server_query_selected gen _ _ _ _ (one_hot_selects _ _ _ Hk))
    in Hrun.
  match type of Hrun with _ = Returns _ ?w0 => set (w1 := w0) in * end.
  assert (Hsame : same_replicas (disk w) (disk w1)).
  { apply (keeps_server gen
             (client_generate_query (Z.of_nat k) (length videoFiles))
             videoFiles w).
    rewrite Hrun. reflexivity. }
  assert (Hfree : decode_blocked (disk w1) = None).
  { apply (decode_blocked_regular _
             (bits_text (gen_r1 gen (length a)))
             (bits_text (gen_r2 gen (length a)))).
    - unfold r1_txt. simpl. rewrite assoc_update_ne by discriminate.
      rewrite assoc_update_eq. reflexivity.
    - unfold r2_txt. simpl. rewrite assoc_update_eq. reflexivity. }
  destruct (read_original_at k
              (World (disk w1) (log w1 ++ decode_prelude (disk w1)))
              files videoFile a) as [w' Hread].
  { cbn [disk]. rewrite (client_listing_same _ _ Hsame). exact Hlist. }
  { exact Hfile. }
  { cbn [disk]. rewrite (proj1 (stored_share_same _ _ videoFile Hsame)).
    exact Ha. }
  exists w'. split; [exact Ha | split; [exact Hb | split]].
  - unfold run_query. rewrite (bind_returns _ _ _ _ _ Hrun).
    rewrite decode_cases, Hfree, Nat2Z.id. exact Hread.
  - rewrite <- Hxor. symmetry. apply xor_bits_cancel. congruence.
Qed.

Lemma pipeline_returns_D0_file_sample :
  share_invariantb two_videos video_b [0%Z] = true
  /\ exists w',
       run_query all_ones [video_a; video_b] 1 (World two_videos [])
       = Returns [1%Z] w'.
Proof.
  assert (Hinv : share_invariantb (disk (World two_videos [])) video_b [0%Z]
                 = true) by reflexivity.
  split; [exact Hinv|].
  destruct (pipeline_returns_D0_file all_ones [video_a; video_b] 1 video_b
              (World two_videos []) [0%Z]
              [D0 ++ video_a; D0 ++ video_b] _
              eq_refl Hinv eq_refl eq_refl eq_refl eq_refl eq_refl)
    as (d0Bits & d1Bits & w' & Ha & _ & Hrun & _).
  exists w'. cbv in Ha. injection Ha as <-. exact Hrun.
Defined.

(** The index counts the setup's listing on the server side and the
    sorted listing on the client side: when [D0] lists b before a, index 0
    is shown as b, the server opens b, and the client decodes a. *)
Example listing_orders_disagree :
  value_of (setup_server_database (World unsorted_videos []))
  = Some [video_b; video_a]
  /\ log_of (server_process_query all_ones (client_generate_query 0 2)
               [video_b; video_a] (World unsorted_videos []))
     = video_events video_b
  /\ value_of (run_query all_ones [video_b; video_a] 0
                 (World unsorted_videos []))
     = Some (bits_of "0").
Proof. split; [reflexivity | split; reflexivity]. Qed.

(** ** Failures *)




(** A [D1] file shorter than the [D0] file is read past its end: the
    behaviour of the server is then undefined. *)
Example short_share_is_read_past_its_end :
  server_process_query all_ones [1%Z] [video_a] (World short_replica [])
  = Undefined.
Proof. reflexivity. Qed.

(** ** What the server's accesses show *)

Example sample_access_traces :
  log_of (server_process_query all_ones (client_generate_query 0 2)
            [video_a; video_b] (World two_videos []))
  = [EvOpenIn ["D0"; "a.binary.txt"]; EvOpenIn ["D1"; "a.binary.txt"];
     EvOpenOut ["r1.txt"]; EvOpenOut ["r2.txt"]]
  /\ log_of (server_process_query all_ones (client_generate_query 1 2)
               [video_a; video_b] (World two_videos []))
     = [EvOpenIn ["D0"; "b.binary.txt"]; EvOpenIn ["D1"; "b.binary.txt"];
        EvOpenOut ["r1.txt"]; EvOpenOut ["r2.txt"]].
Proof. split; reflexivity. Qed.

(** C2, as stated, fails on the two sample videos for the indices 0 and 1:
    the first query makes the server open the two files of [a.binary.txt],
    the second those of [b.binary.txt]. *)
Lemma access_trace_follows_index :
  ~ same_accesses_at all_ones [video_a; video_b] (World two_videos []) 0 1.
Proof.
  unfold same_accesses_at. intros H. vm_compute in H. discriminate.
Qed.

Lemma take_video_events_head n videoFile :
  1 <= n ->
  exists rest,
    take n (video_events videoFile) = EvOpenIn (D0 ++ videoFile) :: rest.
Proof.
  intros Hn. destruct n as [|n]; [lia|]. eexists. reflexivity.
Qed.

Lemma masked_bits_none d0Bits d1Bits r1 r2 :
  forall js j,
    j ∈ js -> length d1Bits <= j ->
    masked_bits d0Bits d1Bits r1 r2 js = None.
Proof.
  induction js as [|j' js IH]; intros j Hin Hj.
  - apply elem_of_nil in Hin. contradiction.
  - simpl. apply elem_of_cons in Hin as [<- | Hin].
    + unfold masked_bit.
      rewrite (proj2 (lookup_ge_None d1Bits j)) by exact Hj.
      destruct (d0Bits !! j); reflexivity.
    + rewrite (IH j Hin Hj).
      destruct (masked_bit d0Bits d1Bits r1 r2 j'); reflexivity.
Qed.

Lemma masked_bits_defined gen d0Bits d1Bits :
  masked_bits d0Bits d1Bits (gen_r1 gen (length d0Bits))
    (gen_r2 gen (length d0Bits)) (seq 0 (length d0Bits)) = None
  <-> length d1Bits < length d0Bits.
Proof.
  split.
  - intros Hnone.
    destruct (Nat.lt_ge_cases (length d1Bits) (length d0Bits)) as [H|H];
      [exact H|].
    destruct (masked_bits_some d0Bits d1Bits (gen_r1 gen (length d0Bits))
                (gen_r2 gen (length d0Bits)) (length d0Bits) 0)
      as (result & Hres & _).
    { lia. } { lia. }
    { unfold gen_r1. rewrite length_fmap, length_seq. lia. }
    { unfold gen_r2. rewrite length_fmap, length_seq. lia. }
    rewrite Hres in Hnone. discriminate.
  - intros Hshort. apply (masked_bits_none _ _ _ _ _ (length d1Bits)).
    + apply list_elem_of_lookup. exists (length d1Bits).
      apply lookup_seq_lt. exact Hshort.
    + lia.
Qed.

Lemma process_video_access gen videoFile w :
  access_rule gen videoFile w (process_video gen videoFile w).
Proof.
  unfold access_rule. split; [|split].
  - intros H0. rewrite process_video_cases. unfold stored_share in H0.
    destruct (resolve (D0 ++ videoFile) (disk w)) as [[?|?]|];
      try discriminate; reflexivity.
  - intros d0Bits H0 H1.
    apply stored_share_regular in H0 as (s0 & E0 & _).
    rewrite process_video_cases, E0. unfold stored_share in H1.
    destruct (resolve (D1 ++ videoFile) (disk w)) as [[?|?]|];
      try discriminate; reflexivity.
  - intros d0Bits d1Bits H0 H1.
    rewrite (process_video_readable _ _ _ _ _ H0 H1).
    unfold after_reading. cbv zeta.
    pose proof (masked_bits_defined gen d0Bits d1Bits) as Hd.
    destruct (masked_bits _ _ _ _ _) as [result|].
    + split; [|split].
      * intros Hlt. apply Hd in Hlt. discriminate.
      * intros _ Hst. rewrite Hst. reflexivity.
      * intros _ Hst.
        destruct (store r1_txt _ _) as [disk1|]; [|contradiction].
        destruct (store r2_txt _ _); reflexivity.
    + assert (Hlt : length d1Bits < length d0Bits) by (apply Hd; reflexivity).
      split; [reflexivity | split; intros; lia].
Qed.

(** C2, amended: for a valid index [k] the server's file-system calls are
    those for video [k] alone: the [D0] file, then the [D1] file, then
    [r1.txt], then [r2.txt], the run stopping only after a file that does not
    open for reading or for writing (and being undefined when the [D1] file is
    the shorter one); the loop is left from inside, and no other video file is
    opened.  For two indices naming different videos the sequences of
    accesses therefore differ (already at the first file opened), and the
    server's observer learns the index. *)
Theorem accesses_are_those_of_selected_video gen (k1 k2 : nat) videoFiles
    f1 f2 w :
  NoDup videoFiles -> k1 <> k2 ->
  videoFiles !! k1 = Some f1 -> videoFiles !! k2 = Some f2 ->
  let run k := server_process_query gen
                 (client_generate_query (Z.of_nat k) (length videoFiles))
                 videoFiles w in
  access_rule gen f1 w (run k1)
  /\ access_rule gen f2 w (run k2)
  /\ (run k1 <> Undefined -> run k2 <> Undefined ->
      log_of (run k1) <> log_of (run k2)).
Proof.
  intros Hnd Hne Hk1 Hk2 run.
  assert (R1 : run k1 = process_video gen f1 w).
  { unfold run. rewrite (server_query_selected gen _ _ _ _
                           (one_hot_selects _ _ _ Hk1)). reflexivity. }
  assert (R2 : run k2 = process_video gen f2 w).
  { unfold run. rewrite (server_query_selected gen _ _ _ _
                           (one_hot_selects _ _ _ Hk2)). reflexivity. }
  rewrite R1, R2.
  split; [apply process_video_access | split; [apply process_video_access|]].
  pose proof (process_video_log gen f1 w) as L1.
  pose proof (process_video_log gen f2 w) as L2.
  intros D1 D2 Heq.
  destruct L1 as [U1 | (n1 & Hn1 & E1)]; [contradiction|].
  destruct L2 as [U2 | (n2 & Hn2 & E2)]; [contradiction|].
  rewrite E1, E2 in Heq. apply app_inv_head in Heq.
  destruct (take_video_events_head n1 f1 Hn1) as [rest1 T1].
  destruct (take_video_events_head n2 f2 Hn2) as [rest2 T2].
  rewrite T1, T2 in Heq. injection Heq as Hf _.
  apply Hne. apply (NoDup_lookup videoFiles k1 k2 f1 Hnd Hk1).
  rewrite Hk2. f_equal. symmetry. exact Hf.
Qed.

Lemma accesses_are_those_of_selected_video_sample :
  NoDup [video_a; video_b]
  /\ log_of (server_process_query all_ones (client_generate_query 0 2)
               [video_a; video_b] (World two_videos []))
     = video_events video_a
  /\ log_of (server_process_query all_ones (client_generate_query 1 2)
               [video_a; video_b] (World two_videos []))
     = video_events video_b
  /\ log_of (server_process_query all_ones (client_generate_query 0 2)
               [video_a; video_b] (World two_videos []))
     <> log_of (server_process_query all_ones (client_generate_query 1 2)
                  [video_a; video_b] (World two_videos [])).
Proof.
  assert (Hnd : NoDup [video_a; video_b]).
  { apply NoDup_cons. split; [|apply NoDup_singleton].
    intros Hin. apply list_elem_of_singleton in Hin. discriminate. }
  split; [exact Hnd|].
  destruct (accesses_are_those_of_selected_video all_ones 0 1
              [video_a; video_b] video_a video_b (World two_videos []) Hnd
              (fun H : 0 = 1 => O_S 0 H) eq_refl eq_refl)
    as ((_ & _ & A1) & (_ & _ & A2) & Hdiff).
  split; [|split].
  - apply (proj2 (proj2 (A1 [0%Z] [0%Z] eq_refl eq_refl)));
      [simpl; lia | discriminate].
  - apply (proj2 (proj2 (A2 [1%Z] [1%Z] eq_refl eq_refl)));
      [simpl; lia | discriminate].
  - apply Hdiff; discriminate.
Defined.

(** * The rest of the program: properties *)

(** ** Loops run with enough fuel *)

Lemma stride_S step i cnt :
  stride step i (S cnt) = i :: stride step (i + step) cnt.
Proof.
  unfold stride. simpl. f_equal.
  - rewrite N.mul_0_r. apply N.add_0_r.
  - rewrite <- fmap_S_seq, <- list_fmap_compose.
    apply list_fmap_ext. intros _ q _. simpl.
    rewrite Nat2N.inj_succ, N.mul_succ_r. lia.
Qed.

Lemma stride_app step i a b :
  stride step i (a + b)
  = stride step i a ++ stride step (i + step * N.of_nat a) b.
Proof.
  revert i. induction a as [|a IH]; intros i.
  - simpl. rewrite N.mul_0_r, N.add_0_r. reflexivity.
  - change (S a + b) with (S (a + b)). rewrite !stride_S, IH. simpl.
    do 3 f_equal. rewrite Nat2N.inj_succ, N.mul_succ_r. lia.
Qed.

Lemma length_stride step i cnt : length (stride step i cnt) = cnt.
Proof. unfold stride. rewrite length_fmap. apply length_seq. Qed.

Lemma lookup_stride step i cnt q :
  q < cnt -> stride step i cnt !! q = Some (i + step * N.of_nat q)%N.
Proof.
  intros Hq. unfold stride.
  rewrite list_lookup_fmap, lookup_seq_lt by exact Hq. reflexivity.
Qed.

(** A loop whose test holds for [cnt] turns and fails at the next leaves
    through its test, having pushed the items of those [cnt] positions. *)
Lemma for_loop_stride {X : Type} (step : N) (item : N -> X) (e : N) :
  forall cnt fuel i buf,
    cnt <= fuel ->
    (forall q, q < cnt -> (i + step * N.of_nat q < e)%N) ->
    (e <= i + step * N.of_nat cnt)%N ->
    for_loop step item fuel e i buf
    = ((i + step * N.of_nat cnt)%N, buf ++ (item <$> stride step i cnt)).
Proof.
  induction cnt as [|cnt IH]; intros fuel i buf Hfuel Hin Hout.
  - simpl in Hout. rewrite N.mul_0_r, N.add_0_r in *.
    unfold stride. simpl. rewrite app_nil_r.
    destruct fuel as [|fuel]; simpl; [reflexivity|].
    destruct (N.ltb_spec i e); [lia | reflexivity].
  - destruct fuel as [|fuel]; [lia|]. cbn [for_loop].
    pose proof (Hin 0 ltac:(lia)) as H0. simpl in H0.
    rewrite N.mul_0_r, N.add_0_r in H0.
    destruct (N.ltb_spec i e); [|lia].
    rewrite (IH fuel (i + step)%N).
    + rewrite stride_S, Nat2N.inj_succ, N.mul_succ_r.
      rewrite <- app_assoc. simpl. f_equal. lia.
    + lia.
    + intros q Hq. pose proof (Hin (S q) ltac:(lia)) as Hq'.
      rewrite Nat2N.inj_succ, N.mul_succ_r in Hq'. lia.
    + rewrite Nat2N.inj_succ, N.mul_succ_r in Hout. lia.
Qed.

Lemma for_loop_by_1 {X : Type} (item : N -> X) (e i : N) fuel buf :
  N.to_nat (e - i) <= fuel ->
  for_loop 1 item fuel e i buf
  = (N.max i e, buf ++ (item <$> stride 1 i (N.to_nat (e - i)))).
Proof.
  intros Hfuel.
  rewrite (for_loop_stride 1 item e (N.to_nat (e - i))); [|exact Hfuel|lia|lia].
  f_equal. lia.
Qed.

Lemma for_loop_by_8 {X : Type} (item : N -> X) (e i : N) fuel buf :
  N.to_nat ((e - i + 7) / 8) <= fuel ->
  for_loop 8 item fuel e i buf
  = ((i + 8 * ((e - i + 7) / 8))%N,
     buf ++ (item <$> stride 8 i (N.to_nat ((e - i + 7) / 8)))).
Proof.
  intros Hfuel.
  rewrite (for_loop_stride 8 item e (N.to_nat ((e - i + 7) / 8)));
    [|exact Hfuel| |].
  - f_equal. lia.
  - intros q Hq. zify. Z.div_mod_to_equations. lia.
  - zify. Z.div_mod_to_equations. lia.
Qed.

Ltac div_lia := zify; Z.div_mod_to_equations; lia.

(** ** The text writer's chunks *)

Section TextChunks.

Variables (X : Type) (item : N -> X) (size c : N) (F : nat).
Hypothesis Hc : (0 < c)%N.
Hypothesis HF : N.to_nat size <= F.

Lemma chunk_loop_by_1 :
  forall fuel i written,
    (i <= size)%N -> N.to_nat (size - i) <= fuel ->
    chunk_loop c (fun end_ i => for_loop 1 item F end_ i []) fuel size i
      written
    = (size, written ++ (item <$> stride 1 i (N.to_nat (size - i)))).
Proof.
  induction fuel as [|fuel IH]; intros i written Hi Hfuel.
  - assert (i = size) as -> by lia. simpl.
    rewrite N.sub_diag. unfold stride. simpl. rewrite app_nil_r. reflexivity.
  - cbn [chunk_loop]. destruct (N.ltb_spec i size) as [Hlt|Hge].
    + set (end_ := N.min size (i + c)).
      rewrite for_loop_by_1 by lia. cbn [fst snd app].
      replace (N.max i end_) with end_ by lia.
      rewrite IH by lia. f_equal. rewrite <- app_assoc. f_equal.
      rewrite <- fmap_app. f_equal.
      replace (N.to_nat (size - i))
        with (N.to_nat (end_ - i) + N.to_nat (size - end_)) by lia.
      rewrite stride_app. do 2 f_equal. lia.
    + assert (i = size) as -> by lia.
      rewrite N.sub_diag. unfold stride. simpl. rewrite app_nil_r.
      reflexivity.
Qed.

End TextChunks.

Lemma bits_text_chars bits :
  bits_text bits = string_of_list_ascii (bit_char <$> bits).
Proof. induction bits as [|b bits IH]; simpl; [|rewrite IH]; reflexivity. Qed.

Lemma text_items bits :
  (fun i => bit_char (default 0%Z (bits !! N.to_nat i)))
  <$> stride 1 0 (length bits)
  = bit_char <$> bits.
Proof.
  apply list_eq. intros q. rewrite !list_lookup_fmap.
  destruct (Nat.lt_ge_cases q (length bits)) as [Hq|Hq].
  - rewrite lookup_stride by exact Hq.
    destruct (lookup_lt_is_Some_2 bits q Hq) as [b Hb]. rewrite Hb. simpl.
    replace (N.to_nat (0 + 1 * N.of_nat q)) with q by lia.
    rewrite Hb. reflexivity.
  - rewrite (proj2 (lookup_ge_None _ _)) by (rewrite length_stride; exact Hq).
    rewrite (proj2 (lookup_ge_None _ _)) by exact Hq. reflexivity.
Qed.

Lemma text_chunks_spec bits :
  text_chunks bits = (N.of_nat (length bits), bit_char <$> bits).
Proof.
  unfold text_chunks.
  rewrite (chunk_loop_by_1 ascii _ (N.of_nat (length bits)) chunkSize
             (length bits)); [| reflexivity | lia | lia | lia ].
  rewrite N.sub_0_r, Nat2N.id, text_items. reflexivity.
Qed.

(** X1: the chunked loops of [writeBitsFile] leave through their tests
    and write, in order, one character per entry of the vector, '0' for a
    zero and '1' for anything else: the chunk size does not show in the file,
    which is the one [writeBitsFile] is modelled to write. *)
Theorem chunked_writer_writes_each_bit (bits : list Z) :
  fst (text_chunks bits) = N.of_nat (length bits)
  /\ string_of_list_ascii (snd (text_chunks bits)) = bits_text bits
  /\ String.length (bits_text bits) = length bits
  /\ forall p, writeBitsFile_chunked p bits = writeBitsFile p bits.
Proof.
  rewrite text_chunks_spec. cbn [fst snd].
  split; [reflexivity | split; [symmetry; apply bits_text_chars | split]].
  - induction bits as [|b bits IH]; simpl; [|rewrite IH]; reflexivity.
  - intros p. unfold writeBitsFile_chunked, writeBitsFile.
    rewrite text_chunks_spec. cbn [snd]. rewrite bits_text_chars.
    reflexivity.
Qed.

(** ** Bits packed into bytes *)

Lemma land_1_odd x : Z.land x 1 = Z.b2z (Z.odd x).
Proof.
  change 1%Z with (Z.ones 1). rewrite Z.land_ones by lia.
  rewrite <- Z.bit0_odd, Z.bit0_mod. reflexivity.
Qed.

Lemma or_bits_ext f g :
  (forall k, (k < 8)%N -> f k = g k) -> or_bits f = or_bits g.
Proof.
  intros H. unfold or_bits. cbn [fold_left].
  rewrite (H 0%N), (H 1%N), (H 2%N), (H 3%N), (H 4%N), (H 5%N), (H 6%N),
    (H 7%N) by lia.
  reflexivity.
Qed.

Lemma eight_cases (k : N) :
  (k < 8)%N ->
  k = 0%N \/ k = 1%N \/ k = 2%N \/ k = 3%N \/ k = 4%N \/ k = 5%N
  \/ k = 6%N \/ k = 7%N.
Proof. lia. Qed.

Lemma or_bits_layout f :
  (0 <= or_bits f < 256)%Z
  /\ forall k, (k < 8)%N ->
       Z.testbit (or_bits f) (7 - Z.of_N k) = Z.odd (f k).
Proof.
  unfold or_bits. cbn [fold_left]. rewrite !land_1_odd.
  split.
  - destruct (Z.odd (f 0%N)), (Z.odd (f 1%N)), (Z.odd (f 2%N)),
      (Z.odd (f 3%N)), (Z.odd (f 4%N)), (Z.odd (f 5%N)), (Z.odd (f 6%N)),
      (Z.odd (f 7%N)); vm_compute; split; congruence.
  - intros k Hk.
    destruct (eight_cases k Hk) as [->|[->|[->|[->|[->|[->|[->| ->]]]]]]];
      destruct (Z.odd (f 0%N)), (Z.odd (f 1%N)), (Z.odd (f 2%N)),
        (Z.odd (f 3%N)), (Z.odd (f 4%N)), (Z.odd (f 5%N)), (Z.odd (f 6%N)),
        (Z.odd (f 7%N)); reflexivity.
Qed.

Section VideoChunks.

Variables (bits : list Z) (c8 : N).
Hypothesis Hc8 : (0 < c8)%N.

Lemma video_byte_end (end_ m idx : N) :
  let size := N.of_nat (length bits) in
  end_ = N.min size (8 * m + 8 * c8) ->
  (idx + 8 <= end_)%N \/ end_ = size ->
  video_byte bits end_ idx = video_byte bits size idx.
Proof.
  intros size Hend Hcase. unfold video_byte.
  apply or_bits_ext. intros k Hk. cbv zeta.
  destruct Hcase as [Hin| ->]; [|reflexivity].
  destruct (N.ltb_spec (idx + k) end_); [|lia].
  destruct (N.ltb_spec (idx + k) size); [reflexivity | lia].
Qed.

Lemma chunk_loop_by_8 :
  let size := N.of_nat (length bits) in
  let total := ((size + 7) / 8)%N in
  forall fuel m written,
    (m <= total)%N -> N.to_nat (size - 8 * m) <= fuel ->
    chunk_loop (8 * c8)
      (fun end_ i => for_loop 8 (video_byte bits end_) (length bits) end_ i [])
      fuel size (8 * m) written
    = ((8 * total)%N,
       written
       ++ (video_byte bits size <$> stride 8 (8 * m) (N.to_nat (total - m)))).
Proof.
  intros size total.
  assert (Hexit : forall m written,
             (m <= total)%N -> (size <= 8 * m)%N ->
             ((8 * m)%N, written)
             = ((8 * total)%N,
                written
                ++ (video_byte bits size
                    <$> stride 8 (8 * m) (N.to_nat (total - m))))).
  { intros m written Hm Hge.
    assert (m = total) as -> by (subst total; div_lia).
    rewrite N.sub_diag. unfold stride. simpl. rewrite app_nil_r.
    reflexivity. }
  induction fuel as [|fuel IH]; intros m written Hm Hfuel.
  - cbn [chunk_loop]. apply Hexit; [exact Hm | lia].
  - cbn [chunk_loop]. destruct (N.ltb_spec (8 * m) size) as [Hlt|Hge];
      [|apply Hexit; [exact Hm | exact Hge]].
    set (end_ := N.min size (8 * m + 8 * c8)).
    set (cnt := ((end_ - 8 * m + 7) / 8)%N).
    rewrite for_loop_by_8 by (subst cnt end_ size; div_lia).
    cbn [fst snd app]. fold cnt.
    replace (8 * m + 8 * cnt)%N with (8 * (m + cnt))%N by lia.
    assert (Hcnt : (1 <= cnt)%N) by (subst cnt end_; div_lia).
    assert (Hm' : (m + cnt <= total)%N) by (subst cnt end_ total; div_lia).
    rewrite IH; [|exact Hm' | lia].
    f_equal. rewrite <- app_assoc. f_equal.
    replace (N.to_nat (total - m))
      with (N.to_nat cnt + N.to_nat (total - (m + cnt))) by lia.
    rewrite stride_app, fmap_app. f_equal.
    + apply list_fmap_ext. intros q idx Hq.
      assert (Hqlt : q < N.to_nat cnt).
      { apply lookup_lt_Some in Hq. rewrite length_stride in Hq. exact Hq. }
      rewrite lookup_stride in Hq by exact Hqlt. injection Hq as <-.
      apply (video_byte_end end_ m); [reflexivity|].
      subst cnt end_ size. div_lia.
    + do 2 f_equal. lia.
Qed.

End VideoChunks.

Lemma video_chunks_spec bits :
  video_chunks bits
  = ((8 * ((N.of_nat (length bits) + 7) / 8))%N, packed bits).
Proof.
  unfold video_chunks, packed.
  change chunkBits with (8 * 125000)%N. change 0%N with (8 * 0)%N at 1.
  rewrite (chunk_loop_by_8 bits 125000); [| lia | div_lia | lia ].
  cbn [app]. rewrite N.sub_0_r. reflexivity.
Qed.

(** X2: [writeBitsAsBinaryVideo]'s loops leave through their tests and
    produce one byte per eight bits, rounded up; bit [8q + k] of the vector
    (its lowest binary digit) is bit [7 - k] of byte [q], most significant
    first, and the positions past the end of the vector are 0.  The chunks
    do not show. *)
Theorem bits_are_packed_msb_first (bits : list Z) :
  (N.of_nat (length bits) <= fst (video_chunks bits))%N
  /\ length (snd (video_chunks bits))
     = N.to_nat ((N.of_nat (length bits) + 7) / 8)
  /\ forall q byte,
       snd (video_chunks bits) !! q = Some byte ->
       (0 <= byte < 256)%Z
       /\ forall k, k < 8 ->
            Z.testbit byte (7 - Z.of_nat k)
            = Z.odd (default 0%Z (bits !! (8 * q + k))).
Proof.
  rewrite video_chunks_spec. cbn [fst snd].
  split; [div_lia | split].
  - unfold packed. rewrite length_fmap. apply length_stride.
  - intros q byte Hq. unfold packed in Hq.
    rewrite list_lookup_fmap in Hq.
    destruct (stride 8 0 _ !! q) as [idx|] eqn:Hidx; [|discriminate].
    injection Hq as <-.
    assert (Hqlt : q < N.to_nat ((N.of_nat (length bits) + 7) / 8)).
    { apply lookup_lt_Some in Hidx. rewrite length_stride in Hidx.
      exact Hidx. }
    rewrite lookup_stride in Hidx by exact Hqlt. injection Hidx as <-.
    unfold video_byte.
    match goal with
    | |- context [or_bits ?f] => destruct (or_bits_layout f) as [Hr Hl]
    end.
    split; [exact Hr|]. intros k Hk.
    rewrite <- nat_N_Z, Hl by lia. cbv zeta.
    destruct (N.ltb_spec (0 + 8 * N.of_nat q + N.of_nat k)
                (N.of_nat (length bits))) as [Hin|Hout].
    + do 3 f_equal. lia.
    + rewrite (proj2 (lookup_ge_None bits (8 * q + k))) by lia.
      reflexivity.
Qed.

Lemma bits_are_packed_msb_first_sample :
  snd (video_chunks ten_bits) !! 1 = Some 192%Z
  /\ Z.testbit 192 (7 - Z.of_nat 1) = Z.odd (default 0%Z (ten_bits !! 9))
  /\ Z.testbit 192 (7 - Z.of_nat 2) = Z.odd (default 0%Z (ten_bits !! 10)).
Proof.
  assert (H : snd (video_chunks ten_bits) !! 1 = Some 192%Z)
    by (vm_compute; reflexivity).
  split; [exact H|].
  destruct (proj2 (proj2 (bits_are_packed_msb_first ten_bits)) 1 192%Z H)
    as [_ Hk].
  split; [apply (Hk 1) | apply (Hk 2)]; lia.
Defined.

(** ** The two ways to the video file *)

Lemma get_bits_text bits q :
  String.get q (bits_text bits) = bit_char <$> (bits !! q).
Proof.
  revert q. induction bits as [|b bits IH]; intros [|q]; simpl;
    try reflexivity. apply IH.
Qed.

Lemma length_bits_text bits : String.length (bits_text bits) = length bits.
Proof. induction bits as [|b bits IH]; simpl; [|rewrite IH]; reflexivity. Qed.

Lemma text_bytes_spec s :
  text_bytes s
  = ((8 * ((N.of_nat (String.length s) + 7) / 8))%N,
     char_byte s
     <$> stride 8 0 (N.to_nat ((N.of_nat (String.length s) + 7) / 8))).
Proof.
  unfold text_bytes. rewrite for_loop_by_8 by div_lia.
  rewrite N.sub_0_r. reflexivity.
Qed.

Lemma char_byte_bits_text bits i :
  char_byte (bits_text bits) i
  = video_byte (truth <$> bits) (N.of_nat (length (truth <$> bits))) i.
Proof.
  unfold char_byte, video_byte. apply or_bits_ext. intros k Hk. cbv zeta.
  rewrite length_bits_text, length_fmap.
  destruct (N.ltb_spec (i + k) (N.of_nat (length bits))) as [Hin|Hout];
    [|reflexivity].
  rewrite get_bits_text, list_lookup_fmap.
  destruct (lookup_lt_is_Some_2 bits (N.to_nat (i + k))) as [b Hb]; [lia|].
  rewrite Hb. simpl. unfold bit_char, truth.
  destruct (b =? 0)%Z; reflexivity.
Qed.

Lemma text_bytes_bits_text bits :
  snd (text_bytes (bits_text bits)) = packed (truth <$> bits).
Proof.
  rewrite text_bytes_spec. cbn [snd]. unfold packed.
  rewrite length_bits_text, length_fmap.
  apply list_fmap_ext. intros q idx _.
  rewrite char_byte_bits_text, length_fmap. reflexivity.
Qed.

Lemma truth_of_bits bits : Forall is_bit bits -> truth <$> bits = bits.
Proof.
  induction 1 as [|b bits Hb _ IH]; [reflexivity|].
  rewrite fmap_cons, IH. f_equal. destruct Hb as [-> | ->]; reflexivity.
Qed.

(** X3: the bytes [convertBitsFileToBinaryVideo] makes of a text that
    [writeBitsFile] wrote are the packing of the vector with every non-zero
    entry read as 1; for a vector of 0s and 1s they are the bytes
    [writeBitsAsBinaryVideo] makes of the vector itself, so the two ways
    [client_reconstruct_video] has to the video file agree. *)
Theorem file_and_direct_conversion_agree (bits : list Z) :
  snd (text_bytes (bits_text bits)) = packed (truth <$> bits)
  /\ (Forall is_bit bits ->
      snd (text_bytes (bits_text bits)) = snd (video_chunks bits)).
Proof.
  split; [apply text_bytes_bits_text|].
  intros Hbits.
  rewrite text_bytes_bits_text, (truth_of_bits _ Hbits), video_chunks_spec.
  reflexivity.
Qed.

Lemma file_and_direct_conversion_agree_sample :
  Forall is_bit ten_bits
  /\ snd (text_bytes (bits_text ten_bits)) = [177%Z; 192%Z]
  /\ snd (video_chunks ten_bits) = [177%Z; 192%Z].
Proof.
  assert (Hbits : Forall is_bit ten_bits).
  { unfold ten_bits.
    repeat (constructor; [first [left; reflexivity | right; reflexivity]|]).
    constructor. }
  split; [exact Hbits|].
  pose proof (proj2 (file_and_direct_conversion_agree ten_bits) Hbits) as H.
  split; [rewrite H|]; reflexivity.
Defined.

(** ** Writing a file and reading it back *)

Lemma store_resolve p data :
  forall n n', store p data n = Some n' -> resolve p n' = Some (Regular data).
Proof.
  induction p as [|c p IH]; intros n n' H.
  - destruct n; [|discriminate]. injection H as <-. reflexivity.
  - destruct n as [s|es]; [discriminate|]. simpl in H.
    destruct (assoc c es) as [m|].
    + destruct (store p data m) as [m'|] eqn:E; [|discriminate].
      injection H as <-. simpl. rewrite assoc_update_eq. exact (IH _ _ E).
    + destruct p; [|discriminate]. injection H as <-. simpl.
      rewrite assoc_update_eq. reflexivity.
Qed.

Lemma bits_of_bits_text bits : bits_of (bits_text bits) = truth <$> bits.
Proof.
  induction bits as [|b bits IH]; [reflexivity|].
  unfold bits_of. simpl. rewrite push_bits_app, IH.
  unfold push_bit, bit_char, truth. destruct (b =? 0)%Z; reflexivity.
Qed.

(** X4: once [writeBitsFile] has returned true for a path, [readBitsFile]
    on that path returns true and appends to its vector one entry per entry
    written, 0 for a zero and 1 for anything else: a vector of 0s and 1s
    comes back as it was.  When [writeBitsFile] returns false the disk is as
    before. *)
Theorem written_bits_read_back (p : path) (bits outBits : list Z)
    (w w' : world) (ok : bool) :
  writeBitsFile p bits w = Returns ok w' ->
  (ok = true ->
   readBitsFile p outBits w'
   = Returns (true, outBits ++ (truth <$> bits)) (emit (EvOpenIn p) w')
   /\ (Forall is_bit bits ->
       readBitsFile p outBits w'
       = Returns (true, outBits ++ bits) (emit (EvOpenIn p) w')))
  /\ (ok = false -> disk w' = disk w).
Proof.
  unfold writeBitsFile, ofstream_write.
  destruct (store p (bits_text bits) (disk w)) as [d|] eqn:E;
    intros H; injection H as <- <-.
  - split; [|discriminate]. intros _.
    assert (Hread : readBitsFile p outBits
                      (World d (log w ++ [EvOpenOut p]))
                    = Returns (true, outBits ++ (truth <$> bits))
                        (emit (EvOpenIn p) (World d (log w ++ [EvOpenOut p])))).
    { unfold readBitsFile, ifstream_read, bind, ret. cbn [disk].
      rewrite (store_resolve _ _ _ _ E).
      rewrite push_bits_app, bits_of_bits_text. reflexivity. }
    split; [exact Hread|].
    intros Hbits. rewrite Hread, (truth_of_bits _ Hbits). reflexivity.
  - split; [discriminate|]. intros _. reflexivity.
Qed.

Lemma written_bits_read_back_sample :
  writeBitsFile ["x.bits"] ten_bits (World two_videos [])
  = Returns true
      (World (Folder [("D0", Folder [("a.binary.txt", Regular "0");
                                     ("b.binary.txt", Regular "1")]);
                      ("D1", Folder [("a.binary.txt", Regular "0");
                                     ("b.binary.txt", Regular "1")]);
                      ("x.bits", Regular "1011000111")])
             [EvOpenOut ["x.bits"]])
  /\ value_of (readBitsFile ["x.bits"] []
                 (World (Folder [("D0", Folder [("a.binary.txt", Regular "0");
                                                ("b.binary.txt", Regular "1")]);
                                 ("D1", Folder [("a.binary.txt", Regular "0");
                                                ("b.binary.txt", Regular "1")]);
                                 ("x.bits", Regular "1011000111")])
                        [EvOpenOut ["x.bits"]]))
     = Some (true, ten_bits).
Proof.
  assert (Hw : writeBitsFile ["x.bits"] ten_bits (World two_videos [])
               = Returns true
                   (World (Folder [("D0", Folder [("a.binary.txt", Regular "0");
                                                  ("b.binary.txt", Regular "1")]);
                                   ("D1", Folder [("a.binary.txt", Regular "0");
                                                  ("b.binary.txt", Regular "1")]);
                                   ("x.bits", Regular "1011000111")])
                          [EvOpenOut ["x.bits"]])) by reflexivity.
  split; [exact Hw|].
  destruct (proj1 (written_bits_read_back _ _ [] _ _ _ Hw) eq_refl)
    as [Hread _].
  rewrite Hread. reflexivity.
Defined.

(** ** The client's last step *)

Lemma read_original_returns targetIndex w decoded w1 :
  read_original targetIndex w = Returns decoded w1 ->
  disk w1 = disk w /\ Forall is_bit decoded.
Proof.
  destruct w as [d l].
  unfold read_original, list_videos, directory_iterator, readBitsFile,
    ifstream_read, bind, ret, emit. cbn [disk log].
  destruct (resolve D0 d) as [[?|es]|]; try discriminate.
  destruct (std_sort _ !! targetIndex) as [f|]; cbn [disk log].
  - destruct (resolve f d) as [[s|?]|]; cbn [snd]; intros H;
      try discriminate; injection H as <- <-; (split; [reflexivity|]);
      try apply Forall_nil_2.
    apply bits_of_is_bit.
  - intros H. injection H as <- <-. split; [reflexivity | apply Forall_nil_2].
Qed.

Lemma decode_returns serverResponse targetIndex w decoded w1 :
  client_decode_pir_result serverResponse targetIndex w = Returns decoded w1 ->
  disk w1 = disk w /\ Forall is_bit decoded.
Proof.
  rewrite decode_cases.
  destruct (decode_blocked (disk w)); [discriminate|]. intros H.
  apply read_original_returns in H. exact H.
Qed.

(** What follows the decoding, case by case. *)
Lemma reconstruct_tail decoded w1 :
  Forall is_bit decoded ->
  bind (writeBitsFile retrieved_video_bits decoded)
    (fun ok =>
       if negb ok then convert_bits_to_video_direct decoded
       else
         bind (convertBitsFileToBinaryVideo retrieved_video_bits
                 reconstructed_video_mp4)
           (fun ok2 => if negb ok2 then ret false else ret true)) w1
  = match store retrieved_video_bits (bits_text decoded) (disk w1) with
    | None =>
        match store reconstructed_video_mp4 (bytes_text (packed decoded))
                (disk w1) with
        | Some d =>
            Returns true
              (World d (log w1 ++ [EvOpenOut retrieved_video_bits;
                                   EvOpenOut reconstructed_video_mp4]))
        | None =>
            Returns false
              (World (disk w1)
                 (log w1 ++ [EvOpenOut retrieved_video_bits;
                             EvOpenOut reconstructed_video_mp4]))
        end
    | Some d1 =>
        match store reconstructed_video_mp4 (bytes_text (packed decoded))
                d1 with
        | Some d2 =>
            Returns true
              (World d2 (log w1 ++ [EvOpenOut retrieved_video_bits;
                                    EvOpenIn retrieved_video_bits;
                                    EvOpenOut reconstructed_video_mp4]))
        | None =>
            Returns false
              (World d1 (log w1 ++ [EvOpenOut retrieved_video_bits;
                                    EvOpenIn retrieved_video_bits;
                                    EvOpenOut reconstructed_video_mp4]))
        end
    end.
Proof.
  intros Hbits. destruct w1 as [d l].
  unfold writeBitsFile, convert_bits_to_video_direct, writeBitsAsBinaryVideo,
    convertBitsFileToBinaryVideo, ifstream_open, ofstream_write, bind, ret,
    emit.
  cbn [disk log].
  destruct (store retrieved_video_bits (bits_text decoded) d) as [d1|] eqn:E1;
    cbn [disk log negb].
  - rewrite (store_resolve _ _ _ _ E1).
    change (path_compare retrieved_video_bits reconstructed_video_mp4)
      with Gt.
    cbn [disk log].
    rewrite text_bytes_bits_text, (truth_of_bits _ Hbits).
    destruct (store reconstructed_video_mp4 _ d1) as [d2|];
      cbn [disk log negb]; rewrite <- !app_assoc; reflexivity.
  - rewrite video_chunks_spec. cbn [snd].
    destruct (store reconstructed_video_mp4 _ d) as [d2|];
      cbn [disk log negb]; rewrite <- !app_assoc; reflexivity.
Qed.

Lemma reconstruct_cases serverResponse targetIndex w :
  client_reconstruct_video serverResponse targetIndex w
  = bind (client_decode_pir_result serverResponse targetIndex)
      (fun decoded =>
         bind (writeBitsFile retrieved_video_bits decoded)
           (fun ok =>
              if negb ok then convert_bits_to_video_direct decoded
              else
                bind (convertBitsFileToBinaryVideo retrieved_video_bits
                        reconstructed_video_mp4)
                  (fun ok2 => if negb ok2 then ret false else ret true))) w.
Proof. reflexivity. Qed.

Lemma reconstruct_result serverResponse targetIndex w ok w' :
  client_reconstruct_video serverResponse targetIndex w = Returns ok w' ->
  exists decoded w1,
    client_decode_pir_result serverResponse targetIndex w
    = Returns decoded w1
    /\ (if ok
        then resolve reconstructed_video_mp4 (disk w')
             = Some (Regular (bytes_text (packed decoded)))
        else resolve reconstructed_video_mp4 (disk w')
             = resolve reconstructed_video_mp4 (disk w))
    /\ same_replicas (disk w) (disk w').
Proof.
  rewrite reconstruct_cases. unfold bind at 1.
  destruct (client_decode_pir_result serverResponse targetIndex w)
    as [decoded w1| |] eqn:Hdec; try discriminate.
  destruct (decode_returns _ _ _ _ _ Hdec) as [Hdisk Hbits].
  rewrite (reconstruct_tail _ _ Hbits), Hdisk.
  intros H. exists decoded, w1. split; [reflexivity|].
  destruct (store retrieved_video_bits (bits_text decoded) (disk w))
    as [d1|] eqn:E1.
  - destruct (store reconstructed_video_mp4 _ d1) as [d2|] eqn:E2;
      injection H as <- <-; cbn [disk]; split.
    + exact (store_resolve _ _ _ _ E2).
    + split; unfold D0, D1.
      * rewrite (store_elsewhere _ _ _ _ _ "D0" _ E2) by discriminate.
        apply (store_elsewhere _ _ _ _ _ "D0" _ E1). discriminate.
      * rewrite (store_elsewhere _ _ _ _ _ "D1" _ E2) by discriminate.
        apply (store_elsewhere _ _ _ _ _ "D1" _ E1). discriminate.
    + apply (store_elsewhere _ _ _ _ _ "reconstructed_video.mp4" _ E1).
      discriminate.
    + split; unfold D0, D1.
      * apply (store_elsewhere _ _ _ _ _ "D0" _ E1). discriminate.
      * apply (store_elsewhere _ _ _ _ _ "D1" _ E1). discriminate.
  - destruct (store reconstructed_video_mp4 _ (disk w)) as [d2|] eqn:E2;
      injection H as <- <-; cbn [disk]; split.
    + exact (store_resolve _ _ _ _ E2).
    + split; unfold D0, D1.
      * apply (store_elsewhere _ _ _ _ _ "D0" _ E2). discriminate.
      * apply (store_elsewhere _ _ _ _ _ "D1" _ E2). discriminate.
    + reflexivity.
    + apply same_replicas_refl.
Qed.

(** ** The order of paths and [std::sort] *)

Lemma string_compare_trans a b c :
  String.compare a b = Lt -> String.compare b c = Lt ->
  String.compare a c = Lt.
Proof.
  intros H1 H2.
  apply OrderedTypeEx.String_as_OT.cmp_lt in H1, H2.
  apply OrderedTypeEx.String_as_OT.cmp_lt.
  exact (OrderedTypeEx.String_as_OT.lt_trans _ _ _ H1 H2).
Qed.

Lemma string_compare_refl a : String.compare a a = Eq.
Proof. apply OrderedTypeEx.String_as_OT.cmp_eq. reflexivity. Qed.

Lemma path_compare_eq : forall p q, path_compare p q = Eq -> p = q.
Proof.
  induction p as [|a p IH]; intros [|b q] H; simpl in H;
    try discriminate; [reflexivity|].
  destruct (String.compare a b) eqn:E; try discriminate.
  apply String.compare_eq_iff in E. subst b. f_equal. apply IH. exact H.
Qed.

Lemma path_compare_antisym : forall p q,
  path_compare q p = CompOpp (path_compare p q).
Proof.
  induction p as [|a p IH]; intros [|b q]; simpl; try reflexivity.
  rewrite (String.compare_antisym a b).
  destruct (String.compare b a); simpl; [apply IH | reflexivity..].
Qed.

Lemma path_compare_trans : forall p q r,
  path_compare p q = Lt -> path_compare q r = Lt -> path_compare p r = Lt.
Proof.
  induction p as [|a p IH]; intros [|b q] [|c r] H1 H2; simpl in *;
    try discriminate; try reflexivity.
  destruct (String.compare a b) eqn:E1; try discriminate;
    destruct (String.compare b c) eqn:E2; try discriminate.
  - apply String.compare_eq_iff in E1, E2. subst b c.
    rewrite string_compare_refl. exact (IH _ _ H1 H2).
  - apply String.compare_eq_iff in E1. subst b. rewrite E2. reflexivity.
  - apply String.compare_eq_iff in E2. subst c. rewrite E1. reflexivity.
  - rewrite (string_compare_trans _ _ _ E1 E2). reflexivity.
Qed.

Lemma path_le_cases p q :
  path_le p q <-> path_compare p q = Lt \/ p = q.
Proof.
  unfold path_le, path_ltb. rewrite (path_compare_antisym p q).
  destruct (path_compare p q) eqn:E; simpl; split; intros H;
    try discriminate; auto.
  - right. apply path_compare_eq. exact E.
  - destruct H as [H|H]; [discriminate|]. subst q.
    assert (X : path_compare p p = Eq).
    { pose proof (path_compare_antisym p p) as A.
      destruct (path_compare p p); simpl in A; congruence. }
    congruence.
Qed.

#[local] Instance path_le_trans : Transitive path_le.
Proof.
  intros p q r H1 H2. apply path_le_cases in H1, H2. apply path_le_cases.
  destruct H1 as [H1| ->]; [|exact H2].
  destruct H2 as [H2| <-]; [|left; exact H1].
  left. exact (path_compare_trans _ _ _ H1 H2).
Qed.

#[local] Instance path_le_antisymm : AntiSymm eq path_le.
Proof.
  intros p q H1 H2. apply path_le_cases in H1, H2.
  destruct H1 as [H1|H1]; [|exact H1].
  destruct H2 as [H2|H2]; [|symmetry; exact H2].
  rewrite (path_compare_antisym q p), H2 in H1. discriminate.
Qed.


Lemma sort_insert_perm p l : sort_insert p l ≡ₚ p :: l.
Proof.
  induction l as [|q l IH]; simpl; [reflexivity|].
  destruct (path_ltb q p); [|reflexivity].
  rewrite IH. apply Permutation_swap.
Qed.

Lemma std_sort_perm l : std_sort l ≡ₚ l.
Proof.
  induction l as [|p l IH]; simpl; [reflexivity|].
  rewrite sort_insert_perm, IH. reflexivity.
Qed.






(** ** The two listings of [D0] *)

Lemma substring_all s : substring 0 (String.length s) s = s.
Proof. induction s as [|c s IH]; simpl; [|rewrite IH]; reflexivity. Qed.

Lemma substr_split : forall s n,
  n <= String.length s ->
  s = String.append (substring 0 n s) (substr n s)
  /\ String.length (substring 0 n s) = n.
Proof.
  unfold substr.
  induction s as [|c s IH]; intros [|n] Hn; simpl in *; try lia.
  - split; reflexivity.
  - rewrite substring_all. split; reflexivity.
  - destruct (IH n) as [E L]; [lia|].
    rewrite L. split; [f_equal; exact E | reflexivity].
Qed.

Lemma length_append a b :
  String.length (String.append a b) = String.length a + String.length b.
Proof. induction a as [|c a IH]; simpl; [|rewrite IH]; reflexivity. Qed.

Lemma rfind_dot_append a b :
  rfind_dot (String.append a b)
  = match rfind_dot b with
    | Some i => Some (String.length a + i)
    | None => rfind_dot a
    end.
Proof.
  induction a as [|c a IH]; simpl.
  - destruct (rfind_dot b); reflexivity.
  - rewrite IH. destruct (rfind_dot b); reflexivity.
Qed.

Lemma substr_append a b n :
  substr (String.length a + n) (String.append a b) = substr n b.
Proof.
  unfold substr. rewrite length_append.
  replace (String.length a + String.length b - (String.length a + n))
    with (String.length b - n) by lia.
  induction a as [|c a IH]; simpl; [reflexivity | exact IH].
Qed.

Lemma extension_of_video_name name :
  12 <= String.length name ->
  substr (String.length name - 11) name = ".binary.txt" ->
  extension name = ".txt".
Proof.
  intros Hlen Hsuf.
  destruct (substr_split name (String.length name - 11)) as [E L]; [lia|].
  rewrite Hsuf in E.
  set (pre := substring 0 (String.length name - 11) name) in *.
  unfold extension.
  assert (Hne : String.eqb name "." || String.eqb name ".." = false).
  { apply orb_false_iff. split; apply String.eqb_neq; intros ->;
      simpl in Hlen; lia. }
  rewrite Hne, E, rfind_dot_append.
  change (rfind_dot ".binary.txt") with (Some 7).
  cbv beta iota.
  destruct (String.length pre + 7) as [|i] eqn:Ei; [lia|].
  rewrite <- Ei, substr_append. reflexivity.
Qed.

Lemma keeps_compared (e : string * node) :
  decode_keeps e = true
  <-> setup_keeps e = true
      \/ (is_regular_file (snd e) = true /\ fst e = ".binary.txt").
Proof.
  unfold decode_keeps, setup_keeps. destruct e as [name n]. cbn [fst snd].
  split.
  - intros H. apply andb_true_iff in H as [Hreg H].
    apply andb_true_iff in H as [Hlen Hsuf].
    apply Nat.leb_le in Hlen. apply String.eqb_eq in Hsuf.
    destruct (Nat.eq_dec (String.length name) 11) as [H11|H11].
    + right. split; [exact Hreg|].
      rewrite H11 in Hsuf. simpl in Hsuf. unfold substr in Hsuf.
      rewrite Nat.sub_0_r, substring_all in Hsuf. exact Hsuf.
    + left. assert (H12 : 12 <= String.length name) by lia.
      rewrite Hreg, (extension_of_video_name name H12 Hsuf), Hsuf.
      replace (12 <=? String.length name) with true
        by (symmetry; apply Nat.leb_le; exact H12).
      reflexivity.
  - intros [H|[Hreg ->]].
    + apply andb_true_iff in H as [H Hsuf].
      apply andb_true_iff in H as [H Hlen].
      apply andb_true_iff in H as [Hreg _].
      apply andb_true_iff in Hsuf as [_ Hsuf].
      rewrite Hreg, Hsuf.
      replace (11 <=? String.length name) with true; [reflexivity|].
      symmetry. apply Nat.leb_le. apply Nat.leb_le in Hlen. lia.
    + rewrite Hreg. reflexivity.
Qed.

Lemma filter_keeps_agree (es : list (string * node)) :
  (forall e, e ∈ es -> fst e <> ".binary.txt") ->
  filter (fun e => setup_keeps e = true) es
  = filter (fun e => decode_keeps e = true) es.
Proof.
  induction es as [|e es IH]; intros Hno; [reflexivity|].
  assert (IH' : filter (fun e => setup_keeps e = true) es
                = filter (fun e => decode_keeps e = true) es).
  { apply IH. intros x Hx. apply Hno. apply list_elem_of_further. exact Hx. }
  destruct (setup_keeps e) eqn:Es.
  - rewrite filter_cons_True by exact Es.
    rewrite filter_cons_True
      by (apply keeps_compared; left; exact Es).
    rewrite IH'. reflexivity.
  - rewrite filter_cons_False by (rewrite Es; discriminate).
    rewrite filter_cons_False.
    + exact IH'.
    + intros Hd. apply keeps_compared in Hd as [Hs|[_ Hn]].
      * rewrite Es in Hs. discriminate.
      * exact (Hno e (list_elem_of_here _ _) Hn).
Qed.

Lemma setup_returns w videoFiles w' :
  setup_server_database w = Returns videoFiles w' ->
  disk w' = disk w
  /\ match resolve D0 (disk w) with
     | Some (Folder es) =>
         videoFiles
         = (fun e => [fst e]) <$> filter (fun e => setup_keeps e = true) es
     | Some (Regular _) => False
     | None => videoFiles = []
     end.
Proof.
  unfold setup_server_database, fs_exists, directory_iterator, bind, ret,
    emit. cbn [disk log].
  destruct (resolve D0 (disk w)) as [[?|es]|] eqn:Er;
    change (bool_decide (is_Some (Some ?x))) with true;
    change (bool_decide (is_Some (@None node))) with false;
    cbn [negb disk log]; rewrite ?Er; try discriminate.
  - destruct (_ <$> _) as [|f fs] eqn:E; intros H; injection H as <- <-;
      (split; reflexivity).
  - intros H. injection H as <- <-. split; reflexivity.
Qed.

(** X6: the videos the setup lists are the regular files of [D0] with a
    name of at least 12 characters ending in [.binary.txt], in iteration
    order; the test on the extension rejects none of them.  Each is in
    the client's listing too, and unless a file of [D0] is named exactly
    [.binary.txt] (which the client alone lists) the two listings hold the
    same videos. *)
Theorem server_and_client_list_the_same_videos w videoFiles w' es files :
  setup_server_database w = Returns videoFiles w' ->
  resolve D0 (disk w) = Some (Folder es) ->
  client_listing (disk w) = Some files ->
  (forall videoFile,
      videoFile ∈ videoFiles
      <-> exists e,
            e ∈ es /\ videoFile = [fst e]
            /\ is_regular_file (snd e) = true
            /\ 12 <= String.length (fst e)
            /\ substr (String.length (fst e) - 11) (fst e) = ".binary.txt")
  /\ (forall videoFile, videoFile ∈ videoFiles -> D0 ++ videoFile ∈ files)
  /\ ((forall e, e ∈ es -> fst e <> ".binary.txt") ->
      files ≡ₚ (fun videoFile => D0 ++ videoFile) <$> videoFiles).
Proof.
  intros Hsetup Hes Hlist.
  apply setup_returns in Hsetup as [_ Hv]. rewrite Hes in Hv.
  unfold client_listing in Hlist. rewrite Hes in Hlist.
  injection Hlist as <-. subst videoFiles.
  split; [|split].
  - intros videoFile. rewrite list_elem_of_fmap. split.
    + intros (e & -> & He). apply list_elem_of_filter in He as [H He].
      exists e. split; [exact He | split; [reflexivity|]].
      assert (Hd : decode_keeps e = true)
        by (apply keeps_compared; left; exact H).
      unfold setup_keeps in H. unfold decode_keeps in Hd.
      apply andb_true_iff in H as [H _].
      apply andb_true_iff in H as [_ Hlen]. apply Nat.leb_le in Hlen.
      apply andb_true_iff in Hd as [Hreg Hd].
      apply andb_true_iff in Hd as [_ Hsuf]. apply String.eqb_eq in Hsuf.
      split; [exact Hreg | split; [exact Hlen | exact Hsuf]].
    + intros (e & He & -> & Hreg & Hlen & Hsuf).
      exists e. split; [reflexivity|].
      apply list_elem_of_filter. split; [|exact He]. unfold setup_keeps.
      rewrite Hreg, (extension_of_video_name _ Hlen Hsuf), Hsuf.
      replace (12 <=? String.length (fst e)) with true
        by (symmetry; apply Nat.leb_le; exact Hlen).
      reflexivity.
  - intros videoFile Hin.
    apply list_elem_of_fmap in Hin as (e & -> & He).
    apply list_elem_of_filter in He as [Hk He].
    rewrite std_sort_perm.
    apply list_elem_of_fmap. exists e. split; [reflexivity|].
    apply list_elem_of_filter. split; [|exact He].
    apply keeps_compared. left. exact Hk.
  - intros Hno. rewrite std_sort_perm, (filter_keeps_agree es Hno).
    rewrite <- list_fmap_compose. reflexivity.
Qed.

Lemma server_and_client_list_the_same_videos_sample :
  setup_server_database (World unsorted_videos [])
  = Returns [video_b; video_a]
      (World unsorted_videos [EvExists D0; EvIterate D0])
  /\ [D0 ++ video_a; D0 ++ video_b]
     ≡ₚ (fun videoFile => D0 ++ videoFile) <$> [video_b; video_a].
Proof.
  assert (Hs : setup_server_database (World unsorted_videos [])
               = Returns [video_b; video_a]
                   (World unsorted_videos [EvExists D0; EvIterate D0]))
    by reflexivity.
  split; [exact Hs|].
  apply (proj2 (proj2 (server_and_client_list_the_same_videos _ _ _
                         [("b.binary.txt", Regular "1");
                          ("a.binary.txt", Regular "0")]
                         [D0 ++ video_a; D0 ++ video_b]
                         Hs eq_refl eq_refl))).
  intros e He.
  apply elem_of_cons in He as [-> | He]; [discriminate|].
  apply list_elem_of_singleton in He as ->. discriminate.
Defined.

(** ** What the server can end in *)

Lemma masked_bits_is_bit d0Bits d1Bits r1 r2 :
  forall js result,
    masked_bits d0Bits d1Bits r1 r2 js = Some result -> Forall is_bit result.
Proof.
  induction js as [|j js IH]; intros result H; simpl in H.
  - injection H as <-. constructor.
  - unfold masked_bit in H.
    destruct (d0Bits !! j), (d1Bits !! j), (r1 !! j), (r2 !! j);
      try discriminate.
    destruct (masked_bits d0Bits d1Bits r1 r2 js) as [bs|]; [|discriminate].
    injection H as <-. constructor; [|apply IH; reflexivity].
    rewrite land_1_odd. apply is_bit_b2z.
Qed.

Lemma process_video_undefined gen videoFile w :
  process_video gen videoFile w = Undefined
  <-> exists d0Bits d1Bits,
        stored_share D0 videoFile (disk w) = Some d0Bits
        /\ stored_share D1 videoFile (disk w) = Some d1Bits
        /\ length d1Bits < length d0Bits.
Proof.
  rewrite process_video_cases. unfold stored_share.
  destruct (resolve (D0 ++ videoFile) (disk w)) as [[s0|?]|].
  2,3: split; [discriminate | intros (? & ? & ? & _); discriminate].
  destruct (resolve (D1 ++ videoFile) (disk w)) as [[s1|?]|].
  2,3: split; [discriminate | intros (? & ? & _ & ? & _); discriminate].
  unfold after_reading. cbv zeta.
  pose proof (masked_bits_defined gen (bits_of s0) (bits_of s1)) as Hd.
  destruct (masked_bits _ _ _ _ _) as [result|].
  - split.
    + destruct (store r1_txt _ _); [destruct (store r2_txt _ _)|];
        discriminate.
    + intros (a & b & Ha & Hb & Hlt). injection Ha as <-. injection Hb as <-.
      apply Hd in Hlt. discriminate.
  - split; [|reflexivity]. intros _. exists (bits_of s0), (bits_of s1).
    split; [reflexivity | split; [reflexivity|]]. apply Hd. reflexivity.
Qed.

Lemma after_reading_value gen videoFile w d0Bits d1Bits :
  Forall is_bit d0Bits ->
  (forall w', after_reading gen videoFile w d0Bits d1Bits <> Throws w')
  /\ forall response w',
       after_reading gen videoFile w d0Bits d1Bits = Returns response w' ->
       Forall is_bit response.
Proof.
  intros E0. unfold after_reading. cbv zeta.
  destruct (masked_bits _ _ _ _ _) as [result|] eqn:Em;
    [|split; discriminate].
  apply masked_bits_is_bit in Em.
  destruct (store r1_txt _ _); [destruct (store r2_txt _ _)|];
    (split; [discriminate|]); intros ? ? H; injection H as <- _;
    assumption.
Qed.

Lemma process_video_is_bit gen videoFile w response w' :
  process_video gen videoFile w = Returns response w' ->
  Forall is_bit response.
Proof.
  rewrite process_video_cases.
  destruct (resolve (D0 ++ videoFile) (disk w)) as [[s0|?]|];
    [|discriminate|intros H; injection H as <- _; constructor].
  destruct (resolve (D1 ++ videoFile) (disk w)) as [[s1|?]|];
    [|discriminate|intros H; injection H as <- _; constructor].
  apply (after_reading_value gen videoFile w (bits_of s0) (bits_of s1)).
  apply bits_of_is_bit.
Qed.

Lemma process_video_throws gen videoFile w :
  (exists w', process_video gen videoFile w = Throws w')
  <-> is_folder (resolve (D0 ++ videoFile) (disk w)) = true
      \/ (exists d0Bits,
            stored_share D0 videoFile (disk w) = Some d0Bits
            /\ is_folder (resolve (D1 ++ videoFile) (disk w)) = true).
Proof.
  rewrite process_video_cases. unfold stored_share.
  destruct (resolve (D0 ++ videoFile) (disk w)) as [[s0|?]|]; cbn [is_folder].
  - destruct (resolve (D1 ++ videoFile) (disk w)) as [[s1|?]|];
      cbn [is_folder].
    + split.
      * intros [w' H]. exfalso.
        apply (proj1 (after_reading_value gen videoFile w (bits_of s0)
                        (bits_of s1) (bits_of_is_bit s0)) w' H).
      * intros [H|(? & _ & H)]; discriminate.
    + split; [|intros _; eexists; reflexivity].
      intros _. right. exists (bits_of s0). split; reflexivity.
    + split; [intros [? H]; discriminate|].
      intros [H|(? & _ & H)]; discriminate.
  - split; [intros _; left; reflexivity | intros _; eexists; reflexivity].
  - split; [intros [? H]; discriminate|].
    intros [H|(? & H & _)]; discriminate.
Qed.

(** The loop ends at once or runs the body for one of the videos, which
    one not depending on the random draws. *)
Lemma server_loop_shape query :
  forall rest i,
    (forall gen, server_loop gen query i rest = ret [])
    \/ exists videoFile,
         videoFile ∈ rest
         /\ forall gen,
              server_loop gen query i rest = process_video gen videoFile.
Proof.
  induction rest as [|f rest IH]; intros i; simpl.
  - left. reflexivity.
  - destruct ((i <? length query) && (default 0%Z (query !! i) =? 1)%Z).
    + right. exists f. split; [apply list_elem_of_here | reflexivity].
    + destruct (IH (S i)) as [H|(g & Hg & H)]; [left; exact H|].
      right. exists g. split; [apply list_elem_of_further; exact Hg | exact H].
Qed.

(** X7: whatever the query, the server ends in an exception only through
    a folder standing in the place of the [D0] or [D1] file of a listed video,
    and then leaves the disk as it was; a response it returns holds only 0s
    and 1s.  When the query selects a video, the server ends in an exception
    exactly when the [D0] path of that video is a folder, or its [D0] file is
    read and its [D1] path is a folder; and when the two files are readable,
    its behaviour is undefined exactly when the [D1] file holds fewer bits
    than the [D0] file. *)
Theorem server_outcomes gen query videoFiles w :
  (forall w',
      server_process_query gen query videoFiles w = Throws w' ->
      disk w' = disk w
      /\ exists videoFile,
           videoFile ∈ videoFiles
           /\ (is_folder (resolve (D0 ++ videoFile) (disk w)) = true
               \/ is_folder (resolve (D1 ++ videoFile) (disk w)) = true))
  /\ (forall response w',
        server_process_query gen query videoFiles w = Returns response w' ->
        Forall is_bit response)
  /\ (forall i videoFile,
        selects query videoFiles i videoFile ->
        ((exists w', server_process_query gen query videoFiles w = Throws w')
         <-> is_folder (resolve (D0 ++ videoFile) (disk w)) = true
             \/ (exists d0Bits,
                   stored_share D0 videoFile (disk w) = Some d0Bits
                   /\ is_folder (resolve (D1 ++ videoFile) (disk w)) = true)))
  /\ (forall i videoFile d0Bits d1Bits,
        selects query videoFiles i videoFile ->
        stored_share D0 videoFile (disk w) = Some d0Bits ->
        stored_share D1 videoFile (disk w) = Some d1Bits ->
        (server_process_query gen query videoFiles w = Undefined
         <-> length d1Bits < length d0Bits)).
Proof.
  split; [|split; [|split]].
  - unfold server_process_query.
    destruct (server_loop_shape query videoFiles 0) as [H|(f & Hf & H)];
      rewrite H; [discriminate|].
    intros w' E. split.
    + rewrite process_video_cases in E.
      destruct (resolve (D0 ++ f) (disk w)) as [[s0|?]|];
        [|injection E as <-; reflexivity|discriminate].
      destruct (resolve (D1 ++ f) (disk w)) as [[s1|?]|];
        [|injection E as <-; reflexivity|discriminate].
      exfalso.
      apply (proj1 (after_reading_value gen f w (bits_of s0) (bits_of s1)
                      (bits_of_is_bit s0)) w' E).
    + exists f. split; [exact Hf|].
      destruct (proj1 (process_video_throws gen f w) (ex_intro _ w' E))
        as [F|(? & _ & F)]; [left | right]; exact F.
  - unfold server_process_query.
    destruct (server_loop_shape query videoFiles 0) as [H|(f & _ & H)];
      rewrite H.
    + intros ? ? E. injection E as <- _. constructor.
    + apply process_video_is_bit.
  - intros i videoFile Hsel.
    rewrite (server_query_selected _ _ _ _ _ Hsel).
    apply process_video_throws.
  - intros i videoFile d0Bits d1Bits Hsel H0 H1.
    rewrite (server_query_selected _ _ _ _ _ Hsel).
    rewrite process_video_undefined. split.
    + intros (a & b & Ha & Hb & Hlt). congruence.
    + intros Hlt. exists d0Bits, d1Bits. auto.
Qed.

Lemma server_outcomes_sample :
  selects [1%Z] [video_a] 0 video_a
  /\ server_process_query all_ones [1%Z] [video_a] (World short_replica [])
     = Undefined
  /\ exists w',
       server_process_query all_ones [1%Z] [video_a] (World folder_replica [])
       = Throws w'.
Proof.
  assert (Hsel : selects [1%Z] [video_a] 0 video_a).
  { split; [reflexivity | split; [reflexivity|]]. intros j Hj. lia. }
  split; [exact Hsel | split].
  - apply (proj2 (proj2 (proj2 (proj2 (server_outcomes all_ones [1%Z]
                                         [video_a] (World short_replica []))))
                   0 video_a [1%Z; 1%Z] [1%Z] Hsel eq_refl eq_refl)).
    repeat constructor.
  - apply (proj2 (proj1 (proj2 (proj2 (server_outcomes all_ones [1%Z]
                                         [video_a] (World folder_replica []))))
                   0 video_a Hsel)).
    right. exists [0%Z]. split; reflexivity.
Defined.

(** ** The decoder at the edges *)

Lemma read_original_cases targetIndex w :
  read_original targetIndex w
  = match client_listing (disk w) with
    | None => Throws (emit (EvIterate D0) w)
    | Some files =>
        match files !! targetIndex with
        | None => Returns [] (emit (EvIterate D0) w)
        | Some f =>
            match resolve f (disk w) with
            | Some (Regular s) =>
                Returns (bits_of s) (emit (EvOpenIn f) (emit (EvIterate D0) w))
            | Some (Folder _) =>
                Throws (emit (EvOpenIn f) (emit (EvIterate D0) w))
            | None => Returns [] (emit (EvOpenIn f) (emit (EvIterate D0) w))
            end
        end
    end.
Proof.
  destruct w as [d l].
  unfold read_original, list_videos, directory_iterator, readBitsFile,
    ifstream_read, client_listing, bind, ret, emit. cbn [disk log].
  destruct (resolve D0 d) as [[?|es]|]; try reflexivity.
  destruct (std_sort _ !! targetIndex) as [f|]; [|reflexivity].
  cbn [disk log]. destruct (resolve f d) as [[s|?]|]; reflexivity.
Qed.



(** ** The whole run *)

Lemma bind_returns_inv {A B : Type} (m : M A) (k : A -> M B) w b w' :
  bind m k w = Returns b w' ->
  exists a w1, m w = Returns a w1 /\ k a w1 = Returns b w'.
Proof.
  unfold bind. destruct (m w) as [a w1| |]; try discriminate.
  intros H. exists a, w1. split; [reflexivity | exact H].
Qed.

Lemma listed_path_resolves d d' es f :
  same_replicas d d' ->
  f ∈ std_sort (video_paths es) ->
  resolve f d' = resolve f d.
Proof.
  intros [H0 _] Hin. rewrite std_sort_perm in Hin.
  apply list_elem_of_fmap in Hin as (e & -> & _).
  rewrite !resolve_app, H0. reflexivity.
Qed.

Lemma read_original_value_same targetIndex d l d' l' :
  same_replicas d d' ->
  value_of (read_original targetIndex (World d' l'))
  = value_of (read_original targetIndex (World d l)).
Proof.
  intros Hsame. rewrite !read_original_cases. cbn [disk].
  rewrite (client_listing_same _ _ Hsame).
  unfold client_listing. destruct (resolve D0 d) as [[?|es]|]; try reflexivity.
  fold (video_paths es).
  destruct (std_sort (video_paths es) !! targetIndex) as [f|] eqn:Ef;
    [|reflexivity].
  rewrite (listed_path_resolves d d' es f Hsame).
  - destruct (resolve f d) as [[?|?]|]; reflexivity.
  - apply list_elem_of_lookup. exists targetIndex. exact Ef.
Qed.

Lemma decode_value serverResponse targetIndex w :
  value_of (client_decode_pir_result serverResponse targetIndex w)
  = match decode_blocked (disk w) with
    | Some _ => None
    | None => value_of (read_original targetIndex (World (disk w) []))
    end
  /\ client_decode_pir_result serverResponse targetIndex w <> Undefined.
Proof.
  rewrite decode_cases.
  destruct (decode_blocked (disk w)); [split; [reflexivity | discriminate]|].
  split.
  - apply read_original_value_same. apply same_replicas_refl.
  - rewrite read_original_cases. cbn [disk].
    destruct (client_listing _); [destruct (_ !! _)|]; try discriminate.
    destruct (resolve _ _) as [[?|?]|]; discriminate.
Qed.

Lemma decode_returns_read serverResponse targetIndex w decoded w' d l :
  client_decode_pir_result serverResponse targetIndex w = Returns decoded w' ->
  same_replicas d (disk w) ->
  value_of (read_original targetIndex (World d l)) = Some decoded.
Proof.
  intros H Hsame.
  pose proof (proj1 (decode_value serverResponse targetIndex w)) as V.
  rewrite H in V. cbn [value_of] in V.
  destruct (decode_blocked (disk w)); [discriminate|].
  rewrite V. symmetry. apply read_original_value_same. exact Hsame.
Qed.

Lemma keeps_reconstruct serverResponse targetIndex :
  keeps_replicas (client_reconstruct_video serverResponse targetIndex).
Proof.
  intros w d' H.
  destruct (client_reconstruct_video serverResponse targetIndex w)
    as [ok w'|w'|] eqn:E; try discriminate; injection H as <-.
  - destruct (reconstruct_result _ _ _ _ _ E) as (_ & _ & _ & _ & Hs).
    exact Hs.
  - rewrite reconstruct_cases in E. unfold bind at 1 in E.
    destruct (client_decode_pir_result serverResponse targetIndex w)
      as [decoded w1|w1|] eqn:Hdec; try discriminate.
    + destruct (decode_returns _ _ _ _ _ Hdec) as [_ Hbits].
      rewrite (reconstruct_tail _ _ Hbits) in E.
      destruct (store retrieved_video_bits _ _);
        destruct (store reconstructed_video_mp4 _ _); discriminate.
    + injection E as <-.
      apply (keeps_decode serverResponse targetIndex w).
      rewrite Hdec. reflexivity.
Qed.

Lemma keeps_whole_main gen targetIndex : keeps_replicas (main gen targetIndex).
Proof.
  unfold main. apply keeps_bind; [apply keeps_setup|].
  intros videoFiles. destruct videoFiles; [apply keeps_ret|].
  destruct (_ || _); [apply keeps_ret|].
  apply keeps_bind; [apply keeps_server|]. intros resp.
  apply keeps_bind; [apply keeps_reconstruct|]. intros ?. apply keeps_ret.
Qed.

(** X9: when [client_reconstruct_video] returns true, by the text file
    or, that file failing to open, by the direct conversion,
    [reconstructed_video.mp4] holds the decoded bits packed eight to a byte;
    when it returns false that path is as it was before.  Either way [D0]
    and [D1] are left alone. *)
Theorem reconstructed_video_holds_decoded_bits (serverResponse : list Z)
    (targetIndex : nat) (w w' : world) (ok : bool) :
  client_reconstruct_video serverResponse targetIndex w = Returns ok w' ->
  exists decoded w1,
    client_decode_pir_result serverResponse targetIndex w
    = Returns decoded w1
    /\ (if ok
        then resolve reconstructed_video_mp4 (disk w')
             = Some (Regular (bytes_text (packed decoded)))
        else resolve reconstructed_video_mp4 (disk w')
             = resolve reconstructed_video_mp4 (disk w))
    /\ same_replicas (disk w) (disk w').
Proof. apply reconstruct_result. Qed.

Lemma reconstructed_video_holds_decoded_bits_sample :
  match client_reconstruct_video [] 1 (World two_videos []) with
  | Returns ok w' =>
      ok = true
      /\ resolve reconstructed_video_mp4 (disk w')
         = Some (Regular (bytes_text [128%Z]))
  | _ => False
  end.
Proof.
  destruct (client_reconstruct_video [] 1 (World two_videos []))
    as [ok w'|w'|] eqn:E.
  - destruct (reconstructed_video_holds_decoded_bits _ _ _ _ _ E)
      as (decoded & w1 & Hdec & Hmp4 & _).
    vm_compute in Hdec. injection Hdec as <- _.
    vm_compute in E. injection E as <- <-.
    split; [reflexivity | exact Hmp4].
  - vm_compute in E. discriminate.
  - vm_compute in E. discriminate.
Defined.

(** X10: a run of [main] that ends with "PIR Protocol Completed" had an
    index inside the listing, and leaves in [reconstructed_video.mp4] the
    packed bits of what a plain reading of the sorted [D0] listing at that
    index gives on the disk [main] started from; a run that stops before
    the query leaves the disk as it found it; no run writes under [D0] or
    [D1]. *)
Theorem main_leaves_the_packed_D0_file (gen : draws) (targetIndex : Z)
    (w w' : world) (result : option bool) :
  main gen targetIndex w = Returns result w' ->
  same_replicas (disk w) (disk w')
  /\ (result = None -> disk w' = disk w)
  /\ (result = Some true ->
      (0 <= targetIndex)%Z
      /\ exists decoded,
           value_of (read_original (Z.to_nat targetIndex) w) = Some decoded
           /\ resolve reconstructed_video_mp4 (disk w')
              = Some (Regular (bytes_text (packed decoded)))).
Proof.
  intros Hmain.
  split; [apply (keeps_whole_main gen targetIndex w); rewrite Hmain;
          reflexivity|].
  unfold main in Hmain.
  apply bind_returns_inv in Hmain as (videoFiles & w0 & Hsetup & Hmain).
  apply setup_returns in Hsetup as [Hd0 _].
  destruct videoFiles as [|f fs].
  { injection Hmain as <- <-. split; [intros _; exact Hd0 | discriminate]. }
  destruct ((targetIndex <? 0)%Z || (length (f :: fs) <=? Z.to_nat targetIndex))
    eqn:Hcheck.
  { injection Hmain as <- <-. split; [intros _; exact Hd0 | discriminate]. }
  apply bind_returns_inv in Hmain as (resp & w1 & Hserver & Hmain).
  apply bind_returns_inv in Hmain as (ok & w2 & Hrec & Hmain).
  injection Hmain as <- <-.
  split; [discriminate|]. intros [= ->].
  apply orb_false_iff in Hcheck as [Hneg _]. apply Z.ltb_ge in Hneg.
  split; [exact Hneg|].
  destruct (reconstruct_result _ _ _ _ _ Hrec)
    as (decoded & w3 & Hdec & Hmp4 & _).
  exists decoded. split; [|exact Hmp4].
  destruct w as [d l].
  apply (decode_returns_read resp (Z.to_nat targetIndex) w1 decoded w3).
  - exact Hdec.
  - cbn [disk] in Hd0. rewrite <- Hd0.
    apply (keeps_server gen
             (client_generate_query targetIndex (length (f :: fs)))
             (f :: fs) w0).
    rewrite Hserver. reflexivity.
Qed.

Lemma main_leaves_the_packed_D0_file_sample :
  match main all_ones 1 (World two_videos []) with
  | Returns result w' =>
      result = Some true
      /\ value_of (read_original 1 (World two_videos [])) = Some [1%Z]
      /\ resolve reconstructed_video_mp4 (disk w')
         = Some (Regular (bytes_text [128%Z]))
  | _ => False
  end.
Proof.
  destruct (main all_ones 1 (World two_videos [])) as [result w'|w'|] eqn:E.
  - pose proof (main_leaves_the_packed_D0_file _ _ _ _ _ E)
      as (_ & _ & Hdone).
    vm_compute in E. injection E as <- <-.
    destruct (Hdone eq_refl) as (_ & decoded & Hval & Hmp4).
    vm_compute in Hval. injection Hval as <-.
    split; [reflexivity | split; [reflexivity | exact Hmp4]].
  - vm_compute in E. discriminate.
  - vm_compute in E. discriminate.
Defined.

Lemma resolve_top c es : resolve [c] (Folder es) = assoc c es.
Proof. simpl. destruct (assoc c es); reflexivity. Qed.

Lemma store_top c data es :
  store [c] data (Folder es)
  = if is_folder (assoc c es) then None
    else Some (Folder (update c (Regular data) es)).
Proof. simpl. destruct (assoc c es) as [[?|?]|]; reflexivity. Qed.

(** The draws change what the mask files hold, not whether they are there
    or what stands in their place. *)
Lemma after_reading_draws gen1 gen2 videoFile w d0Bits d1Bits :
  match after_reading gen1 videoFile w d0Bits d1Bits,
        after_reading gen2 videoFile w d0Bits d1Bits with
  | Returns _ w1, Returns _ w2 =>
      decode_blocked (disk w1) = decode_blocked (disk w2)
  | Undefined, Undefined => True
  | _, _ => False
  end.
Proof.
  unfold after_reading. cbv zeta.
  pose proof (masked_bits_defined gen1 d0Bits d1Bits) as M1.
  pose proof (masked_bits_defined gen2 d0Bits d1Bits) as M2.
  destruct (masked_bits d0Bits d1Bits (gen_r1 gen1 _) _ _) as [res1|];
    destruct (masked_bits d0Bits d1Bits (gen_r1 gen2 _) _ _) as [res2|].
  2:{ pose proof (proj2 M1 (proj1 M2 eq_refl)). discriminate. }
  2:{ pose proof (proj2 M2 (proj1 M1 eq_refl)). discriminate. }
  2:{ exact I. }
  destruct (disk w) as [s|es]; [reflexivity|].
  unfold r1_txt, r2_txt. rewrite !store_top.
  destruct (is_folder (assoc "r1.txt" es)) eqn:F1; [reflexivity|].
  rewrite !store_top. rewrite !assoc_update_ne by discriminate.
  destruct (is_folder (assoc "r2.txt" es)) eqn:F2; cbn [disk];
    unfold decode_blocked, r1_txt, r2_txt; rewrite !resolve_top.
  - repeat first [rewrite assoc_update_eq
                 | rewrite assoc_update_ne by discriminate].
    reflexivity.
  - repeat first [rewrite assoc_update_eq
                 | rewrite assoc_update_ne by discriminate].
    reflexivity.
Qed.

Lemma process_video_draws gen1 gen2 videoFile w :
  match process_video gen1 videoFile w, process_video gen2 videoFile w with
  | Returns _ w1, Returns _ w2 =>
      decode_blocked (disk w1) = decode_blocked (disk w2)
  | Throws _, Throws _ => True
  | Undefined, Undefined => True
  | _, _ => False
  end.
Proof.
  rewrite !process_video_cases.
  destruct (resolve (D0 ++ videoFile) (disk w)) as [[s0|?]|];
    [|exact I|reflexivity].
  destruct (resolve (D1 ++ videoFile) (disk w)) as [[s1|?]|];
    [|exact I|reflexivity].
  pose proof (after_reading_draws gen1 gen2 videoFile w (bits_of s0)
                (bits_of s1)) as H.
  destruct (after_reading gen1 videoFile w (bits_of s0) (bits_of s1));
    destruct (after_reading gen2 videoFile w (bits_of s0) (bits_of s1));
    try contradiction; exact H.
Qed.

(** X11: the bits a query decodes do not depend on the random draws of
    the server: two runs on one disk with different draws are both undefined
    or decode the same vector. *)
Theorem decoded_bits_ignore_the_draws (gen1 gen2 : draws)
    (videoFiles : list path) (targetIndex : Z) (w : world) :
  value_of (run_query gen1 videoFiles targetIndex w)
  = value_of (run_query gen2 videoFiles targetIndex w)
  /\ (run_query gen1 videoFiles targetIndex w = Undefined
      <-> run_query gen2 videoFiles targetIndex w = Undefined).
Proof.
  unfold run_query, server_process_query.
  set (query := client_generate_query targetIndex (length videoFiles)).
  destruct w as [d l].
  destruct (server_loop_shape query videoFiles 0) as [H|(f & _ & H)].
  - rewrite !H. unfold bind, ret.
    split; [reflexivity | split; intros E; exact E].
  - rewrite !H. unfold bind.
    pose proof (process_video_draws gen1 gen2 f (World d l)) as Hd.
    pose proof (keeps_process_video gen1 f (World d l)) as K1.
    pose proof (keeps_process_video gen2 f (World d l)) as K2.
    destruct (process_video gen1 f (World d l)) as [r1 w1|w1|];
      destruct (process_video gen2 f (World d l)) as [r2 w2|w2|];
      try contradiction.
    + destruct (decode_value r1 (Z.to_nat targetIndex) w1) as [V1 N1].
      destruct (decode_value r2 (Z.to_nat targetIndex) w2) as [V2 N2].
      split; [|split; intros E; contradiction].
      rewrite V1, V2, Hd.
      destruct (decode_blocked (disk w2)); [reflexivity|].
      rewrite (read_original_value_same _ d [] (disk w1) [] (K1 _ eq_refl)).
      rewrite (read_original_value_same _ d [] (disk w2) [] (K2 _ eq_refl)).
      reflexivity.
    + split; [reflexivity | split; discriminate].
    + split; [reflexivity | split; reflexivity].
Qed.

(** ** Reading bits, converting a text *)







